(** * WiredTiger I/O capacity throttle: a shallow embedding and its properties

    The embedded code is the capacity module of the connection layer:
    [__capacity_config], [__wt_capacity_signal], [__capacity_reserve] and
    [__wt_capacity_throttle].  64-bit unsigned quantities are integers
    with the wrap-around written out; the calling thread runs in a small
    state monad over a "world" holding the connection, the interference of
    the other threads and a trace of the observable events. *)

From Stdlib Require Import ZArith List Bool Lia.
Import ListNotations.
Local Open Scope Z_scope.

(** ** Machine arithmetic and engine constants *)

Definition UINT64_MODULUS : Z := 2 ^ 64.

(** Reduction of an integer to a [uint64_t]. *)
Definition u64 (z : Z) : Z := z mod UINT64_MODULUS.

(** Modelled from the spec: the unit constants of [wt_internal.h], whose
    header is not among the sources (one second is 10^9 ns, a microsecond
    is 1000 ns, the byte bound of the throttle is 16 GiB). *)
Definition WT_THOUSAND : Z := 1000.
Definition WT_BILLION : Z := 1000000000.
Definition WT_GIGABYTE : Z := 1073741824.

(** The errno value of an invalid argument. *)
Definition EINVAL : Z := 22.

Definition WT_CAPACITY_PCT : Z := 10.
Definition WT_CAPACITY_SLEEP_CUTOFF_US : Z := 100.

Definition WT_CAP_CKPT : Z := 10.
Definition WT_CAP_EVICT : Z := 60.
Definition WT_CAP_LOG : Z := 20.
Definition WT_CAP_READ : Z := 60.

(** [WT_CAPACITY(total, pct)], on [uint64_t] operands. *)
Definition WT_CAPACITY (total pct : Z) : Z := u64 (total * pct) / 100.

(** [WT_RESERVATION_NS(bytes, capacity)]: the 64-bit product divided by
    the capacity; the division is undefined for a zero capacity. *)
Definition WT_RESERVATION_NS (bytes capacity : Z) : option Z :=
  if capacity =? 0 then None else Some (u64 (bytes * WT_BILLION) / capacity).

(** ** Data model *)

Inductive WT_THROTTLE_TYPE : Type :=
| WT_THROTTLE_CKPT
| WT_THROTTLE_EVICT
| WT_THROTTLE_LOG
| WT_THROTTLE_READ.

Definition type_eqb (a b : WT_THROTTLE_TYPE) : bool :=
  match a, b with
  | WT_THROTTLE_CKPT, WT_THROTTLE_CKPT => true
  | WT_THROTTLE_EVICT, WT_THROTTLE_EVICT => true
  | WT_THROTTLE_LOG, WT_THROTTLE_LOG => true
  | WT_THROTTLE_READ, WT_THROTTLE_READ => true
  | _, _ => false
  end.

(** Modelled from the spec: the statistics counters of the connection
    (the statistics infrastructure is not among the sources); counters with
    increment and set. *)
Module Stat.
Inductive key : Type :=
| capacity_threshold
| capacity_signal_calls
| capacity_signals
| capacity_bytes_written
| capacity_bytes_read
| capacity_ckpt_calls
| capacity_evict_calls
| capacity_log_calls
| capacity_read_calls
| capacity_total_throttles
| capacity_ckpt_throttles
| capacity_evict_throttles
| capacity_log_throttles
| capacity_read_throttles
| capacity_total_time
| capacity_ckpt_time
| capacity_evict_time
| capacity_log_time
| capacity_read_time.

Definition tag (k : key) : Z :=
  match k with
  | capacity_threshold => 0
  | capacity_signal_calls => 1
  | capacity_signals => 2
  | capacity_bytes_written => 3
  | capacity_bytes_read => 4
  | capacity_ckpt_calls => 5
  | capacity_evict_calls => 6
  | capacity_log_calls => 7
  | capacity_read_calls => 8
  | capacity_total_throttles => 9
  | capacity_ckpt_throttles => 10
  | capacity_evict_throttles => 11
  | capacity_log_throttles => 12
  | capacity_read_throttles => 13
  | capacity_total_time => 14
  | capacity_ckpt_time => 15
  | capacity_evict_time => 16
  | capacity_log_time => 17
  | capacity_read_time => 18
  end.

Definition eqb (a b : key) : bool := tag a =? tag b.

Definition table : Type := key -> Z.

Definition set (k : key) (v : Z) (t : table) : table :=
  fun k' => if eqb k k' then v else t k'.

Definition incrv (k : key) (v : Z) (t : table) : table :=
  set k (t k + v) t.

Definition zero : table := fun _ => 0.
End Stat.

(** The fields of the connection that the capacity module reads or
    writes. *)
Record WT_CONNECTION_IMPL : Type := {
  capacity_total : Z;
  capacity_ckpt : Z;
  capacity_evict : Z;
  capacity_log : Z;
  capacity_read : Z;
  capacity_threshold : Z;
  capacity_written : Z;
  capacity_signalled : bool;
  reservation_ckpt : Z;
  reservation_evict : Z;
  reservation_log : Z;
  reservation_read : Z;
  reservation_total : Z;
  WT_CONN_RECOVERING : bool;
  stats : Stat.table
}.

(** A [uint64_t *] into the connection: the reservation clock that
    [reservation] and [steal] point to. *)
Inductive clock_ref : Type :=
| Ref_reservation_ckpt
| Ref_reservation_evict
| Ref_reservation_log
| Ref_reservation_read
| Ref_reservation_total.

Definition deref (r : clock_ref) (c : WT_CONNECTION_IMPL) : Z :=
  match r with
  | Ref_reservation_ckpt => reservation_ckpt c
  | Ref_reservation_evict => reservation_evict c
  | Ref_reservation_log => reservation_log c
  | Ref_reservation_read => reservation_read c
  | Ref_reservation_total => reservation_total c
  end.

Definition with_clocks (c : WT_CONNECTION_IMPL) (ck ev lg rd tot : Z)
  : WT_CONNECTION_IMPL :=
  {| capacity_total := capacity_total c;
     capacity_ckpt := capacity_ckpt c;
     capacity_evict := capacity_evict c;
     capacity_log := capacity_log c;
     capacity_read := capacity_read c;
     capacity_threshold := capacity_threshold c;
     capacity_written := capacity_written c;
     capacity_signalled := capacity_signalled c;
     reservation_ckpt := ck;
     reservation_evict := ev;
     reservation_log := lg;
     reservation_read := rd;
     reservation_total := tot;
     WT_CONN_RECOVERING := WT_CONN_RECOVERING c;
     stats := stats c |}.

Definition assign (r : clock_ref) (v : Z) (c : WT_CONNECTION_IMPL)
  : WT_CONNECTION_IMPL :=
  match r with
  | Ref_reservation_ckpt =>
      with_clocks c v (reservation_evict c) (reservation_log c)
        (reservation_read c) (reservation_total c)
  | Ref_reservation_evict =>
      with_clocks c (reservation_ckpt c) v (reservation_log c)
        (reservation_read c) (reservation_total c)
  | Ref_reservation_log =>
      with_clocks c (reservation_ckpt c) (reservation_evict c) v
        (reservation_read c) (reservation_total c)
  | Ref_reservation_read =>
      with_clocks c (reservation_ckpt c) (reservation_evict c)
        (reservation_log c) v (reservation_total c)
  | Ref_reservation_total =>
      with_clocks c (reservation_ckpt c) (reservation_evict c)
        (reservation_log c) (reservation_read c) v
  end.

Definition set_capacity_written (v : Z) (c : WT_CONNECTION_IMPL)
  : WT_CONNECTION_IMPL :=
  {| capacity_total := capacity_total c;
     capacity_ckpt := capacity_ckpt c;
     capacity_evict := capacity_evict c;
     capacity_log := capacity_log c;
     capacity_read := capacity_read c;
     capacity_threshold := capacity_threshold c;
     capacity_written := v;
     capacity_signalled := capacity_signalled c;
     reservation_ckpt := reservation_ckpt c;
     reservation_evict := reservation_evict c;
     reservation_log := reservation_log c;
     reservation_read := reservation_read c;
     reservation_total := reservation_total c;
     WT_CONN_RECOVERING := WT_CONN_RECOVERING c;
     stats := stats c |}.

Definition set_capacity_signalled (b : bool) (c : WT_CONNECTION_IMPL)
  : WT_CONNECTION_IMPL :=
  {| capacity_total := capacity_total c;
     capacity_ckpt := capacity_ckpt c;
     capacity_evict := capacity_evict c;
     capacity_log := capacity_log c;
     capacity_read := capacity_read c;
     capacity_threshold := capacity_threshold c;
     capacity_written := capacity_written c;
     capacity_signalled := b;
     reservation_ckpt := reservation_ckpt c;
     reservation_evict := reservation_evict c;
     reservation_log := reservation_log c;
     reservation_read := reservation_read c;
     reservation_total := reservation_total c;
     WT_CONN_RECOVERING := WT_CONN_RECOVERING c;
     stats := stats c |}.

Definition set_stats (t : Stat.table) (c : WT_CONNECTION_IMPL)
  : WT_CONNECTION_IMPL :=
  {| capacity_total := capacity_total c;
     capacity_ckpt := capacity_ckpt c;
     capacity_evict := capacity_evict c;
     capacity_log := capacity_log c;
     capacity_read := capacity_read c;
     capacity_threshold := capacity_threshold c;
     capacity_written := capacity_written c;
     capacity_signalled := capacity_signalled c;
     reservation_ckpt := reservation_ckpt c;
     reservation_evict := reservation_evict c;
     reservation_log := reservation_log c;
     reservation_read := reservation_read c;
     reservation_total := reservation_total c;
     WT_CONN_RECOVERING := WT_CONN_RECOVERING c;
     stats := t |}.

(** The capacities as [__capacity_config] leaves them. *)
Definition set_capacities (total ckpt evict log read threshold : Z)
  (c : WT_CONNECTION_IMPL) : WT_CONNECTION_IMPL :=
  {| capacity_total := total;
     capacity_ckpt := ckpt;
     capacity_evict := evict;
     capacity_log := log;
     capacity_read := read;
     capacity_threshold := threshold;
     capacity_written := capacity_written c;
     capacity_signalled := capacity_signalled c;
     reservation_ckpt := reservation_ckpt c;
     reservation_evict := reservation_evict c;
     reservation_log := reservation_log c;
     reservation_read := reservation_read c;
     reservation_total := reservation_total c;
     WT_CONN_RECOVERING := WT_CONN_RECOVERING c;
     stats := stats c |}.

(** A connection as it is created: uncapped, every clock and counter
    zero. *)
Definition fresh_connection : WT_CONNECTION_IMPL :=
  {| capacity_total := 0;
     capacity_ckpt := 0;
     capacity_evict := 0;
     capacity_log := 0;
     capacity_read := 0;
     capacity_threshold := 0;
     capacity_written := 0;
     capacity_signalled := false;
     reservation_ckpt := 0;
     reservation_evict := 0;
     reservation_log := 0;
     reservation_read := 0;
     reservation_total := 0;
     WT_CONN_RECOVERING := false;
     stats := Stat.zero |}.

(** ** Configuration *)

Section Config.
(** The engine's minimum throughput; its definition is in a header that
    is not among the sources, so the configuration code takes it as a
    parameter. *)
Variable WT_THROTTLE_MIN : Z.

(** [__capacity_config]: [gets] is what [__wt_config_gets] produced for
    [io_capacity.total], its return code and the [int64_t] value.  The
    result is the return code and the connection. *)
Definition __capacity_config (conn : WT_CONNECTION_IMPL) (gets : Z * Z)
  : Z * WT_CONNECTION_IMPL :=
  let '(ret, val) := gets in
  if negb (ret =? 0) then (ret, conn)
  else if negb (val =? 0) && (val <? WT_THROTTLE_MIN) then (EINVAL, conn)
  else
    let total := u64 val in
    let ckpt :=
      if negb (total =? 0) then WT_CAPACITY total WT_CAP_CKPT
      else capacity_ckpt conn in
    let evict :=
      if negb (total =? 0) then WT_CAPACITY total WT_CAP_EVICT
      else capacity_evict conn in
    let log :=
      if negb (total =? 0) then WT_CAPACITY total WT_CAP_LOG
      else capacity_log conn in
    let read :=
      if negb (total =? 0) then WT_CAPACITY total WT_CAP_READ
      else capacity_read conn in
    let threshold :=
      u64 (u64 (u64 (ckpt + evict) + log) / 100 * WT_CAPACITY_PCT) in
    let conn' := set_capacities total ckpt evict log read threshold conn in
    (0, set_stats (Stat.set Stat.capacity_threshold threshold (stats conn'))
          conn').
End Config.

(** ** The calling thread and its environment *)

Inductive assertion : Type :=
| Assert_bytes_bound
| Assert_capacity_nonzero
| Assert_steal_capacity_nonzero.

(** What a call does that an observer outside the connection sees. *)
Inductive event : Type :=
| EvCondSignal
| EvSleep (seconds micro_seconds : Z)
| EvAssertFailed (a : assertion).

(** The connection as the calling thread shares it: [others] is the
    interference of the other threads, one step taken before each access
    of this thread to the shared memory; [trace] has the newest event
    first. *)
Record world : Type := {
  conn : WT_CONNECTION_IMPL;
  others : list (WT_CONNECTION_IMPL -> WT_CONNECTION_IMPL);
  trace : list event
}.

Inductive fault : Type :=
| DivisionByZero.

Inductive outcome (A : Type) : Type :=
| Done (a : A) (w : world)
| Crash (f : fault) (w : world)
| OutOfFuel.

Arguments Done {A} a w.
Arguments Crash {A} f w.
Arguments OutOfFuel {A}.

Definition M (A : Type) : Type := world -> outcome A.

Definition ret {A : Type} (a : A) : M A := fun w => Done a w.

Definition bind {A B : Type} (m : M A) (k : A -> M B) : M B :=
  fun w =>
    match m w with
    | Done a w' => k a w'
    | Crash f w' => Crash f w'
    | OutOfFuel => OutOfFuel
    end.

Declare Scope throttle_scope.
Delimit Scope throttle_scope with throttle.
Notation "x <- m ;; k" := (bind m (fun x => k))
  (at level 61, m at next level, right associativity) : throttle_scope.
Notation "m ;; k" := (bind m (fun _ => k))
  (at level 61, right associativity) : throttle_scope.
Local Open Scope throttle_scope.

(** The other threads take their next step. *)
Definition yield (w : world) : world :=
  match others w with
  | [] => w
  | f :: rest => {| conn := f (conn w); others := rest; trace := trace w |}
  end.

Definition update (f : WT_CONNECTION_IMPL -> WT_CONNECTION_IMPL) (w : world)
  : world :=
  {| conn := f (conn w); others := others w; trace := trace w |}.

Definition emit (e : event) (w : world) : world :=
  {| conn := conn w; others := others w; trace := e :: trace w |}.

(** A read of a field of the shared connection. *)
Definition load {A : Type} (f : WT_CONNECTION_IMPL -> A) : M A :=
  fun w => let w' := yield w in Done (f (conn w')) w'.

(** Modelled from the spec: the atomic primitives of the engine (their
    header is not among the sources).  Add and subtract return the value
    after the operation; the compare-and-swap reports whether it stored. *)
Definition __wt_atomic_add64 (r : clock_ref) (v : Z) : M Z :=
  fun w =>
    let w' := yield w in
    let n := u64 (deref r (conn w') + v) in
    Done n (update (assign r n) w').

Definition __wt_atomic_sub64 (r : clock_ref) (v : Z) : M Z :=
  fun w =>
    let w' := yield w in
    let n := u64 (deref r (conn w') - v) in
    Done n (update (assign r n) w').

Definition __wt_atomic_store64 (r : clock_ref) (v : Z) : M unit :=
  fun w => Done tt (update (assign r v) (yield w)).

Definition __wt_atomic_casv64 (r : clock_ref) (old new : Z) : M bool :=
  fun w =>
    let w' := yield w in
    if deref r (conn w') =? old then Done true (update (assign r new) w')
    else Done false w'.

Definition __wt_atomic_addv64_written (v : Z) : M Z :=
  fun w =>
    let w' := yield w in
    let n := u64 (capacity_written (conn w') + v) in
    Done n (update (set_capacity_written n) w').

Definition publish_signalled (b : bool) : M unit :=
  fun w => Done tt (update (set_capacity_signalled b) (yield w)).

Definition WT_STAT_CONN_INCRV (k : Stat.key) (v : Z) : M unit :=
  fun w => Done tt (update (fun c => set_stats (Stat.incrv k v (stats c)) c) w).

Definition WT_STAT_CONN_INCR (k : Stat.key) : M unit :=
  WT_STAT_CONN_INCRV k 1.

Definition __wt_cond_signal : M unit :=
  fun w => Done tt (emit EvCondSignal w).

Definition __wt_sleep (seconds micro_seconds : Z) : M unit :=
  fun w => Done tt (emit (EvSleep seconds micro_seconds) w).

(** [WT_ASSERT]: a failed assertion is recorded and the call goes on, as
    in a build without diagnostics. *)
Definition WT_ASSERT (a : assertion) (holds : bool) : M unit :=
  fun w => Done tt (if holds then w else emit (EvAssertFailed a) w).

(** The division of [WT_RESERVATION_NS] inside a call: a zero divisor
    stops the thread. *)
Definition reservation_ns (bytes capacity : Z) : M Z :=
  fun w =>
    match WT_RESERVATION_NS bytes capacity with
    | Some ns => Done ns w
    | None => Crash DivisionByZero w
    end.

(** ** Signalling the capacity server *)

Definition __wt_capacity_signal : M unit :=
  WT_STAT_CONN_INCR Stat.capacity_signal_calls ;;
  written <- load capacity_written ;;
  threshold <- load capacity_threshold ;;
  if written >=? threshold then
    signalled <- load capacity_signalled ;;
    if negb signalled then
      __wt_cond_signal ;;
      publish_signalled true ;;
      WT_STAT_CONN_INCR Stat.capacity_signals
    else ret tt
  else ret tt.

(** ** Reservations *)

Definition __capacity_reserve (reservation : clock_ref)
  (bytes capacity now_ns : Z) : M Z :=
  if negb (capacity =? 0) then
    res_len <- reservation_ns bytes capacity ;;
    res_value <- __wt_atomic_add64 reservation res_len ;;
    (if (now_ns >? res_value) && (u64 (now_ns - res_value) >? WT_BILLION)
     then __wt_atomic_store64 reservation
            (u64 (u64 (now_ns - WT_BILLION) + res_len))
     else ret tt) ;;
    ret res_value
  else ret now_ns.

(** ** The throttle *)

Record timespec : Type := { tv_sec : Z; tv_nsec : Z }.

Definition capacity_of (type : WT_THROTTLE_TYPE) (c : WT_CONNECTION_IMPL) : Z :=
  match type with
  | WT_THROTTLE_CKPT => capacity_ckpt c
  | WT_THROTTLE_EVICT => capacity_evict c
  | WT_THROTTLE_LOG => capacity_log c
  | WT_THROTTLE_READ => capacity_read c
  end.

Definition reservation_of (type : WT_THROTTLE_TYPE) : clock_ref :=
  match type with
  | WT_THROTTLE_CKPT => Ref_reservation_ckpt
  | WT_THROTTLE_EVICT => Ref_reservation_evict
  | WT_THROTTLE_LOG => Ref_reservation_log
  | WT_THROTTLE_READ => Ref_reservation_read
  end.

Definition calls_stat (type : WT_THROTTLE_TYPE) : Stat.key :=
  match type with
  | WT_THROTTLE_CKPT => Stat.capacity_ckpt_calls
  | WT_THROTTLE_EVICT => Stat.capacity_evict_calls
  | WT_THROTTLE_LOG => Stat.capacity_log_calls
  | WT_THROTTLE_READ => Stat.capacity_read_calls
  end.

Definition throttles_stat (type : WT_THROTTLE_TYPE) : Stat.key :=
  match type with
  | WT_THROTTLE_CKPT => Stat.capacity_ckpt_throttles
  | WT_THROTTLE_EVICT => Stat.capacity_evict_throttles
  | WT_THROTTLE_LOG => Stat.capacity_log_throttles
  | WT_THROTTLE_READ => Stat.capacity_read_throttles
  end.

Definition time_stat (type : WT_THROTTLE_TYPE) : Stat.key :=
  match type with
  | WT_THROTTLE_CKPT => Stat.capacity_ckpt_time
  | WT_THROTTLE_EVICT => Stat.capacity_evict_time
  | WT_THROTTLE_LOG => Stat.capacity_log_time
  | WT_THROTTLE_READ => Stat.capacity_read_time
  end.

(** The locals [steal], [steal_capacity] and [best_res] during the scan
    for a subsystem to steal from. *)
Record scan_state : Type := {
  steal : option clock_ref;
  steal_capacity : Z;
  best_res : Z
}.

(** One of the four tests of the scan: the subsystem [victim] is taken
    when it is not the caller's and its clock is below the best so far. *)
Definition scan_victim (type victim : WT_THROTTLE_TYPE) (s : scan_state)
  : M scan_state :=
  if negb (type_eqb type victim) then
    this_res <- load (deref (reservation_of victim)) ;;
    if this_res <? best_res s then
      cap <- load (capacity_of victim) ;;
      ret {| steal := Some (reservation_of victim);
             steal_capacity := cap;
             best_res := this_res |}
    else ret s
  else ret s.

(** How one pass over the code after the label [again] ends. *)
Inductive pass_result : Type :=
| GotoAgain (steal : option clock_ref) (steal_capacity : Z)
| FallThrough (res_value res_total_value : Z).

(** The body of [if (steal != NULL)]: the slice taken from the victim. *)
Definition steal_slice (reservation victim : clock_ref)
  (bytes capacity total_capacity now_ns : Z)
  (steal_capacity best_res res_total_value : Z) : M pass_result :=
  let new_res :=
    if (best_res <? u64 (now_ns - WT_BILLION)) && (now_ns >? WT_BILLION)
    then u64 (now_ns - WT_BILLION)
    else best_res in
  WT_ASSERT Assert_steal_capacity_nonzero (negb (steal_capacity =? 0)) ;;
  slot <- reservation_ns bytes steal_capacity ;;
  let new_res := u64 (new_res + u64 (WT_BILLION / 16 + slot)) in
  swapped <- __wt_atomic_casv64 victim best_res new_res ;;
  if negb swapped then
    own <- reservation_ns bytes capacity ;;
    __wt_atomic_sub64 reservation own ;;
    tot <- reservation_ns bytes total_capacity ;;
    __wt_atomic_sub64 Ref_reservation_total tot ;;
    ret (GotoAgain (Some victim) steal_capacity)
  else
    let stolen_bytes := steal_capacity / 16 in
    back <- reservation_ns stolen_bytes capacity ;;
    res_value <- __wt_atomic_sub64 reservation back ;;
    ret (FallThrough res_value res_total_value).

(** One pass from the label [again] to the end of the steal phase. *)
Definition throttle_pass (type : WT_THROTTLE_TYPE)
  (bytes capacity total_capacity now_ns : Z)
  (steal0 : option clock_ref) (steal_capacity0 : Z) : M pass_result :=
  res_value <- __capacity_reserve (reservation_of type) bytes capacity now_ns ;;
  res_total_value <-
    __capacity_reserve Ref_reservation_total bytes total_capacity now_ns ;;
  match steal0 with
  | None =>
      if (res_value >? now_ns) && (res_total_value <? now_ns)
         && negb (total_capacity =? 0)
      then
        s <- scan_victim type WT_THROTTLE_CKPT
               {| steal := None;
                  steal_capacity := steal_capacity0;
                  best_res := u64 (now_ns - WT_BILLION / 2) |} ;;
        s <- scan_victim type WT_THROTTLE_EVICT s ;;
        s <- scan_victim type WT_THROTTLE_LOG s ;;
        s <- scan_victim type WT_THROTTLE_READ s ;;
        match steal s with
        | Some victim =>
            steal_slice (reservation_of type) victim bytes capacity
              total_capacity now_ns (steal_capacity s) (best_res s)
              res_total_value
        | None => ret (FallThrough res_value res_total_value)
        end
      else ret (FallThrough res_value res_total_value)
  | Some _ => ret (FallThrough res_value res_total_value)
  end.

(** The loop that [goto again] makes; each pass uses one unit of fuel. *)
Fixpoint throttle_again (fuel : nat) (type : WT_THROTTLE_TYPE)
  (bytes capacity total_capacity now_ns : Z)
  (steal0 : option clock_ref) (steal_capacity0 : Z) : M (Z * Z) :=
  match fuel with
  | O => fun _ => OutOfFuel
  | S fuel' =>
      r <- throttle_pass type bytes capacity total_capacity now_ns
             steal0 steal_capacity0 ;;
      match r with
      | GotoAgain st sc =>
          throttle_again fuel' type bytes capacity total_capacity now_ns st sc
      | FallThrough res_value res_total_value =>
          ret (res_value, res_total_value)
      end
  end.

(** The end of the call: the wait target, the statistics and the sleep. *)
Definition throttle_wait (type : WT_THROTTLE_TYPE)
  (now_ns res_value0 res_total_value : Z) : M unit :=
  let res_value :=
    if res_value0 <? res_total_value then res_total_value else res_value0 in
  if res_value >? now_ns then
    let sleep_us := u64 (res_value - now_ns) / WT_THOUSAND in
    (if res_value =? res_total_value then
       WT_STAT_CONN_INCR Stat.capacity_total_throttles ;;
       WT_STAT_CONN_INCRV Stat.capacity_total_time sleep_us
     else
       WT_STAT_CONN_INCR (throttles_stat type) ;;
       WT_STAT_CONN_INCRV (time_stat type) sleep_us) ;;
    if sleep_us >? WT_CAPACITY_SLEEP_CUTOFF_US then __wt_sleep 0 sleep_us
    else ret tt
  else ret tt.

(** [__wt_capacity_throttle]; [now] is what [__wt_epoch] reads. *)
Definition __wt_capacity_throttle (fuel : nat) (now : timespec)
  (bytes : Z) (type : WT_THROTTLE_TYPE) : M unit :=
  capacity <- load (capacity_of type) ;;
  WT_STAT_CONN_INCR (calls_stat type) ;;
  total_capacity <- load capacity_total ;;
  leave <-
    (if (capacity =? 0) && (total_capacity =? 0) then ret true
     else load WT_CONN_RECOVERING) ;;
  if leave then ret tt
  else
    (if negb (type_eqb type WT_THROTTLE_READ) then
       __wt_atomic_addv64_written bytes ;;
       WT_STAT_CONN_INCRV Stat.capacity_bytes_written bytes ;;
       __wt_capacity_signal
     else WT_STAT_CONN_INCRV Stat.capacity_bytes_read bytes) ;;
    WT_ASSERT Assert_bytes_bound (bytes <? 16 * WT_GIGABYTE) ;;
    WT_ASSERT Assert_capacity_nonzero (negb (capacity =? 0)) ;;
    let now_ns := u64 (u64 (tv_sec now) * WT_BILLION + u64 (tv_nsec now)) in
    r <- throttle_again fuel type bytes capacity total_capacity now_ns None 0 ;;
    throttle_wait type now_ns (fst r) (snd r).

(** A thread that makes one call per clock reading of [nows]. *)
Fixpoint throttle_calls (fuel : nat) (nows : list timespec)
  (bytes : Z) (type : WT_THROTTLE_TYPE) : M unit :=
  match nows with
  | [] => ret tt
  | now :: rest =>
      __wt_capacity_throttle fuel now bytes type ;;
      throttle_calls fuel rest bytes type
  end.

(** [k] calls of [__wt_capacity_signal] in a row. *)
Fixpoint signal_calls (k : nat) : M unit :=
  match k with
  | O => ret tt
  | S k' => __wt_capacity_signal ;; signal_calls k'
  end.

(** The number of times the condition was woken. *)
Fixpoint wakes (t : list event) : nat :=
  match t with
  | [] => O
  | EvCondSignal :: t' => S (wakes t')
  | _ :: t' => wakes t'
  end.

(** The sleeps of a trace, newest first. *)
Fixpoint sleeps (t : list event) : list (Z * Z) :=
  match t with
  | [] => []
  | EvSleep s us :: t' => (s, us) :: sleeps t'
  | _ :: t' => sleeps t'
  end.

(** A world with no other thread and nothing observed yet. *)
Definition alone (c : WT_CONNECTION_IMPL) : world :=
  {| conn := c; others := []; trace := [] |}.

(** A computation that never runs out of fuel: on every world it returns
    or crashes. *)
Definition finishes {A : Type} (m : M A) : Prop :=
  forall w : world, m w <> OutOfFuel.

(** ** Scenarios *)

(** A connection configured with a total of 10 MB/s at clock reading 100 s:
    the checkpoint clock idle, the log clock 200 ms ahead, the clock of the
    total half a second behind. *)
Definition busy_log_connection : WT_CONNECTION_IMPL :=
  with_clocks
    (snd (__capacity_config 1048576 fresh_connection (0, 10000000)))
    0 100000000000 100200000000 100000000000 99500000000.

Definition at_100s : timespec := {| tv_sec := 100; tv_nsec := 0 |}.

(** The same connection with another thread that moves the checkpoint
    clock between the scan of this thread and its compare-and-swap (the
    thirteenth access of a log call to the shared memory). *)
Definition contested_world : world :=
  {| conn := busy_log_connection;
     others := repeat (fun c => c) 12 ++ [assign Ref_reservation_ckpt 7];
     trace := [] |}.

(** The contested world as the first pass finds it: the compare-and-swap
    is the seventh access of the pass. *)
Definition contested_pass_world : world :=
  {| conn := busy_log_connection;
     others := repeat (fun c => c) 6 ++ [assign Ref_reservation_ckpt 7];
     trace := [] |}.

Definition in_2023 : timespec := {| tv_sec := 1700000000; tv_nsec := 0 |}.

(** ** Statements about a call *)

(** What holds of the outcome of a computation started in [w]: [Q] of the
    value and the world when it returns, [E] of the fault and the world
    when it crashes. *)
Definition wp {A : Type} (m : M A) (Q : A -> world -> Prop)
  (E : fault -> world -> Prop) (w : world) : Prop :=
  match m w with
  | Done a w' => Q a w'
  | Crash f w' => E f w'
  | OutOfFuel => True
  end.

(** The crash of a call in a state described by [I]: the division by the
    capacity of a victim that has none, after the failed assertion. *)
Definition victim_crash (I : world -> Prop) (f : fault) (w' : world) : Prop :=
  exists (w1 : world) (victim : WT_THROTTLE_TYPE),
    I w1
    /\ capacity_of victim (conn w1) = 0
    /\ f = DivisionByZero
    /\ w' = emit (EvAssertFailed Assert_steal_capacity_nonzero) w1.

(** The scan has read the capacity of its victim from the connection. *)
Definition scan_ok (s : scan_state) (w : world) : Prop :=
  match steal s with
  | None => True
  | Some _ => exists victim, steal_capacity s = capacity_of victim (conn w)
  end.

(** Two connections with the same configuration. *)
Definition same_settings (c c' : WT_CONNECTION_IMPL) : Prop :=
  capacity_total c' = capacity_total c
  /\ capacity_ckpt c' = capacity_ckpt c
  /\ capacity_evict c' = capacity_evict c
  /\ capacity_log c' = capacity_log c
  /\ capacity_read c' = capacity_read c
  /\ capacity_threshold c' = capacity_threshold c
  /\ WT_CONN_RECOVERING c' = WT_CONN_RECOVERING c.

(** ** The capacity server *)

(** What one wait of the server thread meets: whether
    [__wt_cond_wait_signal] reports a signal, whether
    [WT_CONN_SERVER_CAPACITY] is still set when [__capacity_server_run_chk]
    reads it after the wait, and what [__wt_fsync_all_background] returns
    should it be called. *)
Record wakeup : Type := {
  woken_by_signal : bool;
  still_running : bool;
  fsync_result : Z
}.

(** Modelled from the spec: the three statistics counters of the server
    thread (the statistics infrastructure is not among the sources). *)
Record server_stats : Type := {
  stat_capacity_timeout : Z;
  stat_capacity_signalled : Z;
  stat_fsync_notyet : Z
}.

(** How the server thread ends: it returns when the flag is cleared, and
    panics on an error of the flush. *)
Inductive server_end : Type :=
| ServerReturned
| ServerPanic (ret : Z).

(** The connection as the server thread and its callers share it, the
    counters of the server, the number of flushes it has started, and how
    it ended if it has. *)
Record server_state : Type := {
  shared : world;
  counters : server_stats;
  fsyncs : nat;
  ended : option server_end
}.

(** One turn of the loop of [__capacity_server], from the wait to the
    flush. *)
Definition __capacity_server_cycle (k : wakeup) (s : server_state)
  : server_state :=
  let st :=
    if woken_by_signal k then
      {| stat_capacity_timeout := stat_capacity_timeout (counters s);
         stat_capacity_signalled := stat_capacity_signalled (counters s) + 1;
         stat_fsync_notyet := stat_fsync_notyet (counters s) |}
    else
      {| stat_capacity_timeout := stat_capacity_timeout (counters s) + 1;
         stat_capacity_signalled := stat_capacity_signalled (counters s);
         stat_fsync_notyet := stat_fsync_notyet (counters s) |} in
  if negb (still_running k) then
    {| shared := shared s; counters := st; fsyncs := fsyncs s;
       ended := Some ServerReturned |}
  else
    let w := update (set_capacity_signalled false) (shared s) in
    if capacity_written (conn w) >? capacity_threshold (conn w) then
      if negb (fsync_result k =? 0) then
        {| shared := w; counters := st; fsyncs := S (fsyncs s);
           ended := Some (ServerPanic (fsync_result k)) |}
      else
        {| shared := update (set_capacity_written 0) w; counters := st;
           fsyncs := S (fsyncs s); ended := None |}
    else
      {| shared := w;
         counters :=
           {| stat_capacity_timeout := stat_capacity_timeout st;
              stat_capacity_signalled := stat_capacity_signalled st;
              stat_fsync_notyet := stat_fsync_notyet st + 1 |};
         fsyncs := fsyncs s; ended := None |}.


(** What happens around the server: a caller signals, or the server
    thread comes out of its wait. *)
Inductive action : Type :=
| CallSignal
| ServerWake (k : wakeup).

(** Calls of [__wt_capacity_signal] and turns of the server that do not
    overlap, in the order given. *)
Fixpoint run_actions (acts : list action) (s : server_state)
  : option server_state :=
  match acts with
  | [] => Some s
  | CallSignal :: rest =>
      match __wt_capacity_signal (shared s) with
      | Done _ w' =>
          run_actions rest
            {| shared := w'; counters := counters s; fsyncs := fsyncs s;
               ended := ended s |}
      | _ => None
      end
  | ServerWake k :: rest =>
      match ended s with
      | Some _ => run_actions rest s
      | None => run_actions rest (__capacity_server_cycle k s)
      end
  end.

Fixpoint server_wakes (acts : list action) : nat :=
  match acts with
  | [] => O
  | ServerWake _ :: rest => S (server_wakes rest)
  | CallSignal :: rest => server_wakes rest
  end.

(** [n] rounds of a signal followed by a turn of the server. *)
Fixpoint signal_wake_rounds (n : nat) (k : wakeup) : list action :=
  match n with
  | O => []
  | S n' => CallSignal :: ServerWake k :: signal_wake_rounds n' k
  end.

(** ** The lifecycle of the server *)

(** The fields of the connection that start and stop the server. *)
Record WT_CAPACITY_SERVER : Type := {
  WT_CONN_SERVER_CAPACITY : bool;
  WT_CONN_READONLY : bool;
  capacity_session : option nat;
  capacity_cond : option nat;
  capacity_tid_set : bool;
  capacity_usecs : Z
}.

(** What the engine answers to the calls of the lifecycle: the return
    code of each function and, for the two that allocate, the pointer they
    leave in the connection. *)
Record externals : Type := {
  open_internal_session : Z * option nat;
  cond_alloc : Z * option nat;
  thread_create : Z;
  thread_join : Z;
  session_close : Z
}.

(** The calls made to the engine, oldest first. *)
Inductive lifecycle_event : Type :=
| LcSessionOpen
| LcCondAlloc
| LcThreadCreate
| LcCondSignal
| LcThreadJoin
| LcCondDestroy
| LcSessionClose.

Section Lifecycle.
(** The engine's minimum throughput and its macro [WT_TRET], which folds
    the return code of a call into the code kept so far; both are defined
    in headers that are not among the sources. *)
Variable WT_THROTTLE_MIN : Z.
Variable WT_TRET : Z -> Z -> Z.

Definition __capacity_server_start (x : externals) (s : WT_CAPACITY_SERVER)
  : Z * WT_CAPACITY_SERVER * list lifecycle_event :=
  match capacity_session s with
  | Some _ => (0, s, [])
  | None =>
      let '(ret1, session) := open_internal_session x in
      let s1 :=
        {| WT_CONN_SERVER_CAPACITY := true;
           WT_CONN_READONLY := WT_CONN_READONLY s;
           capacity_session := session;
           capacity_cond := capacity_cond s;
           capacity_tid_set := capacity_tid_set s;
           capacity_usecs := capacity_usecs s |} in
      if negb (ret1 =? 0) then (ret1, s1, [LcSessionOpen])
      else
        let '(ret2, cond) := cond_alloc x in
        let s2 :=
          {| WT_CONN_SERVER_CAPACITY := true;
             WT_CONN_READONLY := WT_CONN_READONLY s;
             capacity_session := session;
             capacity_cond := cond;
             capacity_tid_set := capacity_tid_set s;
             capacity_usecs := capacity_usecs s |} in
        if negb (ret2 =? 0) then (ret2, s2, [LcSessionOpen; LcCondAlloc])
        else
          if negb (thread_create x =? 0)
          then (thread_create x, s2,
                [LcSessionOpen; LcCondAlloc; LcThreadCreate])
          else
            (0,
             {| WT_CONN_SERVER_CAPACITY := true;
                WT_CONN_READONLY := WT_CONN_READONLY s;
                capacity_session := session;
                capacity_cond := cond;
                capacity_tid_set := true;
                capacity_usecs := capacity_usecs s |},
             [LcSessionOpen; LcCondAlloc; LcThreadCreate])
  end.

Definition __wt_capacity_server_destroy (x : externals)
  (s : WT_CAPACITY_SERVER)
  : Z * WT_CAPACITY_SERVER * list lifecycle_event :=
  let '(ret1, ev1) :=
    if capacity_tid_set s
    then (WT_TRET 0 (thread_join x), [LcCondSignal; LcThreadJoin])
    else (0, []) in
  let '(ret2, ev2) :=
    match capacity_session s with
    | Some _ => (WT_TRET ret1 (session_close x), [LcSessionClose])
    | None => (ret1, [])
    end in
  (ret2,
   {| WT_CONN_SERVER_CAPACITY := false;
      WT_CONN_READONLY := WT_CONN_READONLY s;
      capacity_session := None;
      capacity_cond := None;
      capacity_tid_set := false;
      capacity_usecs := 0 |},
   ev1 ++ [LcCondDestroy] ++ ev2).

Definition __wt_capacity_server_create (x : externals) (gets : Z * Z)
  (c : WT_CONNECTION_IMPL) (s : WT_CAPACITY_SERVER)
  : Z * WT_CONNECTION_IMPL * WT_CAPACITY_SERVER * list lifecycle_event :=
  if WT_CONN_READONLY s then (0, c, s, [])
  else
    let '(ret1, s1, ev1) :=
      match capacity_session s with
      | Some _ => __wt_capacity_server_destroy x s
      | None => (0, s, [])
      end in
    if negb (ret1 =? 0) then (ret1, c, s1, ev1)
    else
      let '(ret2, c') := __capacity_config WT_THROTTLE_MIN c gets in
      if negb (ret2 =? 0) then (ret2, c', s1, ev1)
      else
        if negb (capacity_threshold c' =? 0) then
          let '(ret3, s2, ev2) := __capacity_server_start x s1 in
          (ret3, c', s2, ev1 ++ ev2)
        else (0, c', s1, ev1).
End Lifecycle.

(** An instance of the macro [WT_TRET] for the scenarios: the first
    error is kept. *)
Definition keep_first_error (ret call : Z) : Z :=
  if ret =? 0 then call else ret.

(** An engine in which every call of the lifecycle succeeds. *)
Definition obliging_engine : externals :=
  {| open_internal_session := (0, Some 1%nat);
     cond_alloc := (0, Some 2%nat);
     thread_create := 0;
     thread_join := 0;
     session_close := 0 |}.

(** The lifecycle fields of a connection that has no server. *)
Definition no_server : WT_CAPACITY_SERVER :=
  {| WT_CONN_SERVER_CAPACITY := false;
     WT_CONN_READONLY := false;
     capacity_session := None;
     capacity_cond := None;
     capacity_tid_set := false;
     capacity_usecs := 0 |}.

(** The lifecycle fields of a connection whose server runs. *)
Definition running_server : WT_CAPACITY_SERVER :=
  {| WT_CONN_SERVER_CAPACITY := true;
     WT_CONN_READONLY := false;
     capacity_session := Some 1%nat;
     capacity_cond := Some 2%nat;
     capacity_tid_set := true;
     capacity_usecs := 0 |}.

(** * Properties *)

(** ** Arithmetic of 64-bit values *)

Lemma u64_range (z : Z) : 0 <= u64 z < UINT64_MODULUS.
Proof.
  unfold u64. apply Z.mod_pos_bound. reflexivity.
Qed.

Lemma u64_small (z : Z) : 0 <= z < UINT64_MODULUS -> u64 z = z.
Proof.
  intros H. unfold u64. apply Z.mod_small. exact H.
Qed.

Lemma u64_add_l (a b : Z) : u64 (u64 a + b) = u64 (a + b).
Proof.
  unfold u64. apply Zplus_mod_idemp_l.
Qed.


Lemma bytes_product_fits (bytes : Z) :
  0 <= bytes < 16 * WT_GIGABYTE -> u64 (bytes * WT_BILLION) = bytes * WT_BILLION.
Proof.
  intros H. apply u64_small.
  unfold WT_GIGABYTE, WT_BILLION, UINT64_MODULUS in *. lia.
Qed.

Lemma reservation_ns_exact (bytes capacity : Z) :
  0 <= bytes < 16 * WT_GIGABYTE -> capacity <> 0 ->
  WT_RESERVATION_NS bytes capacity = Some (bytes * WT_BILLION / capacity).
Proof.
  intros Hb Hc. unfold WT_RESERVATION_NS.
  destruct (capacity =? 0) eqn:E.
  - apply Z.eqb_eq in E. contradiction.
  - rewrite bytes_product_fits by exact Hb. reflexivity.
Qed.

(** ** Configuration *)

Lemma threshold_divides_first (a b c : Z) :
  u64 (u64 (u64 (a + b) + c) / 100 * WT_CAPACITY_PCT)
  = u64 (a + b + c) / 100 * 10.
Proof.
  rewrite u64_add_l. unfold WT_CAPACITY_PCT.
  pose proof (u64_range (a + b + c)) as Hr.
  apply u64_small.
  pose proof (Z.mul_div_le (u64 (a + b + c)) 100 ltac:(lia)) as Hle.
  assert (0 <= u64 (a + b + c) / 100) by (apply Z.div_pos; lia).
  lia.
Qed.

(** C8: a total that is neither zero nor at least the minimum is refused
    with [EINVAL] and the connection is returned as it was; a total of zero
    or at least the minimum is accepted. *)
Theorem capacity_config_validation
  (WT_THROTTLE_MIN : Z) (c : WT_CONNECTION_IMPL) (total : Z) :
  (0 < total < WT_THROTTLE_MIN ->
     __capacity_config WT_THROTTLE_MIN c (0, total) = (EINVAL, c))
  /\ (total = 0 \/ WT_THROTTLE_MIN <= total ->
     fst (__capacity_config WT_THROTTLE_MIN c (0, total)) = 0).
Proof.
  split.
  - intros [Hpos Hlt]. unfold __capacity_config. simpl negb.
    replace (total =? 0) with false by (symmetry; apply Z.eqb_neq; lia).
    replace (total <? WT_THROTTLE_MIN) with true
      by (symmetry; apply Z.ltb_lt; exact Hlt).
    reflexivity.
  - intros H. unfold __capacity_config. simpl negb.
    destruct (total =? 0) eqn:E0; simpl andb.
    + reflexivity.
    + replace (total <? WT_THROTTLE_MIN) with false.
      * reflexivity.
      * symmetry. apply Z.ltb_ge. apply Z.eqb_neq in E0. lia.
Qed.

Lemma capacity_config_validation_witness :
  (__capacity_config 1048576 fresh_connection (0, 4096)
   = (EINVAL, fresh_connection))
  /\ fst (__capacity_config 1048576 fresh_connection (0, 10000000)) = 0.
Proof.
  split.
  - apply (proj1 (capacity_config_validation 1048576 fresh_connection 4096)).
    lia.
  - apply (proj2 (capacity_config_validation 1048576 fresh_connection 10000000)).
    right. lia.
Defined.

(** C2, as the code has it: after every successful configuration the
    threshold is the 64-bit sum of the checkpoint, eviction and log
    capacities divided by 100 first and multiplied by 10 afterwards. *)
Theorem capacity_config_threshold
  (WT_THROTTLE_MIN : Z) (c c' : WT_CONNECTION_IMPL) (gets : Z * Z) :
  __capacity_config WT_THROTTLE_MIN c gets = (0, c') ->
  capacity_threshold c'
  = u64 (capacity_ckpt c' + capacity_evict c' + capacity_log c') / 100 * 10.
Proof.
  destruct gets as [rc val]. unfold __capacity_config.
  destruct (rc =? 0) eqn:Erc; simpl negb; cbv iota.
  - destruct (negb (val =? 0) && (val <? WT_THROTTLE_MIN)).
    + intros H. discriminate H.
    + intros H. injection H as Hconn. subst c'. simpl.
      apply threshold_divides_first.
  - intros H. injection H as Hcode Hconn. subst rc. discriminate Erc.
Qed.

Lemma capacity_config_threshold_witness :
  capacity_threshold
    (snd (__capacity_config 1048576 fresh_connection (0, 1048576)))
  = 94370.
Proof.
  rewrite (capacity_config_threshold 1048576 fresh_connection
             (snd (__capacity_config 1048576 fresh_connection (0, 1048576)))
             (0, 1048576)).
  - reflexivity.
  - reflexivity.
Defined.

(** C2, as the claim states it, fails: a total of one megabyte gives the
    capacities 104857, 629145 and 209715, whose sum times 10 over 100 is
    94371, and the configured threshold is 94370. *)
Lemma capacity_config_threshold_counterexample :
  exists c',
    __capacity_config 1048576 fresh_connection (0, 1048576) = (0, c')
    /\ capacity_threshold c'
       <> (capacity_ckpt c' + capacity_evict c' + capacity_log c') * 10 / 100.
Proof.
  eexists. split.
  - reflexivity.
  - vm_compute. discriminate.
Qed.

(** ** Signalling *)

(** One call of [__wt_capacity_signal] by a thread that runs alone. *)
Lemma signal_alone (c : WT_CONNECTION_IMPL) (t : list event) :
  exists c',
    __wt_capacity_signal {| conn := c; others := []; trace := t |}
    = Done tt {| conn := c'; others := [];
                 trace := if (capacity_written c >=? capacity_threshold c)
                             && negb (capacity_signalled c)
                          then EvCondSignal :: t else t |}
    /\ capacity_written c' = capacity_written c
    /\ capacity_threshold c' = capacity_threshold c
    /\ capacity_signalled c'
       = ((capacity_written c >=? capacity_threshold c)
          && negb (capacity_signalled c)) || capacity_signalled c.
Proof.
  unfold __wt_capacity_signal, bind, WT_STAT_CONN_INCR, WT_STAT_CONN_INCRV,
    load, ret, yield, update.
  cbn.
  destruct (capacity_written c >=? capacity_threshold c) eqn:Ew; cbn.
  - destruct (capacity_signalled c) eqn:Es; cbn.
    + eexists. split; [reflexivity|]. cbn. rewrite Es. auto.
    + eexists. split; [reflexivity|]. cbn. auto.
  - eexists. split; [reflexivity|]. cbn. auto.
Qed.

(** Any number of calls in a row wakes the condition once if a signal is
    due at the start, and not at all otherwise. *)
Lemma signal_calls_alone (k : nat) :
  forall (c : WT_CONNECTION_IMPL) (t : list event),
  exists c' t',
    signal_calls k {| conn := c; others := []; trace := t |}
    = Done tt {| conn := c'; others := []; trace := t' |}
    /\ (wakes t' <= wakes t
          + (if (capacity_written c >=? capacity_threshold c)
                && negb (capacity_signalled c) then 1 else 0))%nat.
Proof.
  induction k as [|k IH]; intros c t.
  - exists c, t. split; [reflexivity|]. lia.
  - destruct (signal_alone c t) as (c1 & Hrun & Hw & Ht & Hs).
    destruct (IH c1 (if (capacity_written c >=? capacity_threshold c)
                        && negb (capacity_signalled c)
                     then EvCondSignal :: t else t))
      as (c2 & t2 & Hrest & Hcount).
    exists c2, t2. split.
    + simpl signal_calls. unfold bind at 1. rewrite Hrun. exact Hrest.
    + rewrite Hw, Ht, Hs in Hcount.
      destruct ((capacity_written c >=? capacity_threshold c)
                && negb (capacity_signalled c)) eqn:Edue.
      * simpl orb in Hcount. simpl negb in Hcount.
        rewrite andb_false_r in Hcount. simpl wakes in Hcount. lia.
      * simpl orb in Hcount. rewrite Edue in Hcount. lia.
Qed.

(** C7: a thread that runs alone wakes the condition and sets
    [capacity_signalled] exactly when the written bytes have reached the
    threshold and the flag is clear, and otherwise leaves the flag and the
    condition alone; [k] calls in a row wake the condition at most once. *)
Theorem capacity_signal_coalesces (w : world) (k : nat) :
  others w = [] ->
  (exists w1,
      __wt_capacity_signal w = Done tt w1
      /\ if (capacity_written (conn w) >=? capacity_threshold (conn w))
            && negb (capacity_signalled (conn w))
         then trace w1 = EvCondSignal :: trace w
              /\ capacity_signalled (conn w1) = true
         else trace w1 = trace w
              /\ capacity_signalled (conn w1) = capacity_signalled (conn w))
  /\ (exists wk,
         signal_calls k w = Done tt wk
         /\ (wakes (trace wk) <= wakes (trace w) + 1)%nat).
Proof.
  destruct w as [c o t]. simpl. intros Ho. subst o. split.
  - destruct (signal_alone c t) as (c1 & Hrun & _ & _ & Hs).
    eexists. split; [exact Hrun|]. simpl.
    destruct ((capacity_written c >=? capacity_threshold c)
              && negb (capacity_signalled c)).
    + split; [reflexivity|]. rewrite Hs. reflexivity.
    + split; [reflexivity|]. rewrite Hs. reflexivity.
  - destruct (signal_calls_alone k c t) as (c' & t' & Hrun & Hcount).
    eexists. split; [exact Hrun|]. simpl.
    destruct ((capacity_written c >=? capacity_threshold c)
              && negb (capacity_signalled c)); lia.
Qed.

Lemma capacity_signal_coalesces_witness :
  exists wk,
    signal_calls 5 (alone fresh_connection) = Done tt wk
    /\ (wakes (trace wk) <= 1)%nat.
Proof.
  destruct (capacity_signal_coalesces (alone fresh_connection) 5 eq_refl)
    as [_ (wk & Hrun & Hcount)].
  exists wk. split; [exact Hrun | exact Hcount].
Defined.

(** ** Reservations *)

Lemma drift_test (now_ns v : Z) :
  0 <= now_ns < UINT64_MODULUS -> 0 <= v < UINT64_MODULUS ->
  (now_ns >? v) && (u64 (now_ns - v) >? WT_BILLION)
  = (v <? now_ns - WT_BILLION).
Proof.
  intros Hn Hv.
  destruct (Z.gtb_spec now_ns v) as [Hgt|Hle]; simpl andb.
  - rewrite u64_small by lia.
    destruct (Z.gtb_spec (now_ns - v) WT_BILLION);
      destruct (Z.ltb_spec v (now_ns - WT_BILLION)); try reflexivity; lia.
  - destruct (Z.ltb_spec v (now_ns - WT_BILLION)); try reflexivity.
    unfold WT_BILLION in *. lia.
Qed.

(** C3: with a zero capacity the reservation is the current time and
    nothing is touched; otherwise the slot of [bytes * 10^9 / cap]
    nanoseconds is added to the clock in one atomic step, the sum [v] is
    returned, and the clock is reset to [now_ns - 10^9 + slot] exactly
    when [v] is more than a second behind [now_ns]. *)
Theorem capacity_reserve_spec
  (r : clock_ref) (bytes cap now_ns : Z) (w : world) :
  0 <= bytes < 16 * WT_GIGABYTE ->
  0 <= now_ns < UINT64_MODULUS ->
  (cap = 0 -> __capacity_reserve r bytes cap now_ns w = Done now_ns w)
  /\ (cap <> 0 ->
      let slot_ns := bytes * WT_BILLION / cap in
      let w1 := yield w in
      let v := u64 (deref r (conn w1) + slot_ns) in
      let w2 := update (assign r v) w1 in
      __capacity_reserve r bytes cap now_ns w
      = Done v
          (if v <? now_ns - WT_BILLION
           then update (assign r (u64 (now_ns - WT_BILLION + slot_ns)))
                  (yield w2)
           else w2)).
Proof.
  intros Hb Hn. split.
  - intros Hc. subst cap. reflexivity.
  - intros Hc. cbv zeta. unfold __capacity_reserve.
    replace (cap =? 0) with false by (symmetry; apply Z.eqb_neq; exact Hc).
    change (negb false) with true. cbv iota.
    unfold bind at 1. unfold reservation_ns.
    rewrite (reservation_ns_exact bytes cap Hb Hc).
    unfold bind at 1. unfold __wt_atomic_add64. cbv beta zeta.
    rewrite drift_test by (try exact Hn; apply u64_range).
    rewrite u64_add_l.
    unfold bind, ret, __wt_atomic_store64.
    destruct (u64 (deref r (conn (yield w)) + bytes * WT_BILLION / cap)
              <? now_ns - WT_BILLION); reflexivity.
Qed.

Lemma capacity_reserve_spec_witness :
  __capacity_reserve Ref_reservation_log 500000 1000000 0
    (alone fresh_connection)
  = Done 500000000
      (update (assign Ref_reservation_log 500000000) (alone fresh_connection)).
Proof.
  refine (proj2 (capacity_reserve_spec Ref_reservation_log 500000 1000000 0
                   (alone fresh_connection) _ _) _).
  - unfold WT_GIGABYTE. lia.
  - unfold UINT64_MODULUS. lia.
  - lia.
Defined.

(** ** The end of a call *)

Lemma wait_target_is_max (res_value res_total_value : Z) :
  (if res_value <? res_total_value then res_total_value else res_value)
  = Z.max res_value res_total_value.
Proof.
  destruct (Z.ltb_spec res_value res_total_value); lia.
Qed.



(** ** The steal phase *)




(** ** Termination of the retry loop *)

Lemma bind_done {A B : Type} (m : M A) (k : A -> M B) (w w' : world) (b : B) :
  bind m k w = Done b w' ->
  exists a w1, m w = Done a w1 /\ k a w1 = Done b w'.
Proof.
  unfold bind. destruct (m w) as [a w1| |]; intros H.
  - exists a, w1. split; [reflexivity | exact H].
  - discriminate H.
  - discriminate H.
Qed.

Lemma bind_cong_l {A B : Type} (m m' : M A) (k : A -> M B) (w : world) :
  m w = m' w -> bind m k w = bind m' k w.
Proof.
  unfold bind. intros H. rewrite H. reflexivity.
Qed.

Lemma bind_cong_r {A B : Type} (m : M A) (k k' : A -> M B) (w : world) :
  (forall a w1, k a w1 = k' a w1) -> bind m k w = bind m k' w.
Proof.
  unfold bind. intros H. destruct (m w); auto.
Qed.

Lemma finishes_ret {A : Type} (a : A) : finishes (ret a).
Proof.
  intros w. discriminate.
Qed.

Lemma finishes_bind {A B : Type} (m : M A) (k : A -> M B) :
  finishes m -> (forall a, finishes (k a)) -> finishes (bind m k).
Proof.
  intros Hm Hk w. unfold bind. specialize (Hm w).
  destruct (m w) as [a w1| |].
  - apply Hk.
  - discriminate.
  - contradiction.
Qed.

Lemma finishes_load {A : Type} (f : WT_CONNECTION_IMPL -> A) :
  finishes (load f).
Proof.
  intros w. discriminate.
Qed.

Lemma finishes_add64 (r : clock_ref) (v : Z) : finishes (__wt_atomic_add64 r v).
Proof.
  intros w. discriminate.
Qed.

Lemma finishes_sub64 (r : clock_ref) (v : Z) : finishes (__wt_atomic_sub64 r v).
Proof.
  intros w. discriminate.
Qed.

Lemma finishes_store64 (r : clock_ref) (v : Z) :
  finishes (__wt_atomic_store64 r v).
Proof.
  intros w. discriminate.
Qed.

Lemma finishes_casv64 (r : clock_ref) (old new : Z) :
  finishes (__wt_atomic_casv64 r old new).
Proof.
  intros w. unfold __wt_atomic_casv64.
  destruct (deref r (conn (yield w)) =? old); discriminate.
Qed.

Lemma finishes_addv64_written (v : Z) : finishes (__wt_atomic_addv64_written v).
Proof.
  intros w. discriminate.
Qed.

Lemma finishes_stat_incrv (k : Stat.key) (v : Z) :
  finishes (WT_STAT_CONN_INCRV k v).
Proof.
  intros w. discriminate.
Qed.

Lemma finishes_stat_incr (k : Stat.key) : finishes (WT_STAT_CONN_INCR k).
Proof.
  apply finishes_stat_incrv.
Qed.

Lemma finishes_assert (a : assertion) (b : bool) : finishes (WT_ASSERT a b).
Proof.
  intros w. discriminate.
Qed.

Lemma finishes_reservation_ns (bytes capacity : Z) :
  finishes (reservation_ns bytes capacity).
Proof.
  intros w. unfold reservation_ns.
  destruct (WT_RESERVATION_NS bytes capacity); discriminate.
Qed.

Lemma finishes_sleep (s us : Z) : finishes (__wt_sleep s us).
Proof.
  intros w. discriminate.
Qed.

Lemma finishes_cond_signal : finishes __wt_cond_signal.
Proof.
  intros w. discriminate.
Qed.

Lemma finishes_publish (b : bool) : finishes (publish_signalled b).
Proof.
  intros w. discriminate.
Qed.

Create HintDb finishes_db.
#[local] Hint Resolve finishes_ret finishes_load finishes_add64 finishes_sub64
  finishes_store64 finishes_casv64 finishes_addv64_written
  finishes_stat_incrv finishes_stat_incr finishes_assert
  finishes_reservation_ns finishes_sleep finishes_cond_signal
  finishes_publish : finishes_db.

(** Splits a computation along its binds and conditionals down to the
    primitives. *)
Ltac finish :=
  repeat first
    [ progress intros
    | apply finishes_bind
    | match goal with
      | |- finishes (if ?b then _ else _) => destruct b
      | |- finishes (match ?o with Some _ => _ | None => _ end) => destruct o
      end
    | solve [auto with finishes_db] ].

Lemma finishes_signal : finishes __wt_capacity_signal.
Proof.
  unfold __wt_capacity_signal. finish.
Qed.

Lemma finishes_reserve (r : clock_ref) (bytes capacity now_ns : Z) :
  finishes (__capacity_reserve r bytes capacity now_ns).
Proof.
  unfold __capacity_reserve. finish.
Qed.

Lemma finishes_scan_victim (type victim : WT_THROTTLE_TYPE) (s : scan_state) :
  finishes (scan_victim type victim s).
Proof.
  unfold scan_victim. finish.
Qed.

Lemma finishes_steal_slice
  (reservation victim : clock_ref)
  (bytes capacity total_capacity now_ns sc best rtv : Z) :
  finishes (steal_slice reservation victim bytes capacity total_capacity
              now_ns sc best rtv).
Proof.
  unfold steal_slice. finish.
Qed.

#[local] Hint Resolve finishes_signal finishes_reserve finishes_scan_victim
  finishes_steal_slice : finishes_db.

Lemma finishes_pass (type : WT_THROTTLE_TYPE)
  (bytes capacity total_capacity now_ns : Z)
  (st : option clock_ref) (sc : Z) :
  finishes (throttle_pass type bytes capacity total_capacity now_ns st sc).
Proof.
  unfold throttle_pass. finish.
Qed.

Lemma finishes_wait (type : WT_THROTTLE_TYPE) (now_ns rv rtv : Z) :
  finishes (throttle_wait type now_ns rv rtv).
Proof.
  unfold throttle_wait. finish.
Qed.

(** A pass that enters with [steal] set falls through. *)
Lemma pass_after_steal_falls_through
  (type : WT_THROTTLE_TYPE) (bytes capacity total_capacity now_ns : Z)
  (victim : clock_ref) (sc : Z) (w w' : world)
  (st' : option clock_ref) (sc' : Z) :
  throttle_pass type bytes capacity total_capacity now_ns (Some victim) sc w
  <> Done (GotoAgain st' sc') w'.
Proof.
  unfold throttle_pass. intros H.
  apply bind_done in H. destruct H as (rv & w1 & _ & H).
  apply bind_done in H. destruct H as (rtv & w2 & _ & H).
  discriminate H.
Qed.

(** What a failed compare-and-swap leaves behind. *)
Lemma steal_slice_failure
  (reservation victim : clock_ref)
  (bytes capacity total_capacity now_ns : Z)
  (victim_capacity best rtv : Z) (w w' : world)
  (st' : option clock_ref) (sc' : Z) :
  steal_slice reservation victim bytes capacity total_capacity now_ns
    victim_capacity best rtv w
  = Done (GotoAgain st' sc') w' ->
  st' = Some victim
  /\ capacity <> 0 /\ total_capacity <> 0
  /\ deref victim (conn (yield w)) <> best
  /\ w' = (let wa := yield (yield w) in
           let wb :=
             update (assign reservation
                       (u64 (deref reservation (conn wa)
                             - u64 (bytes * WT_BILLION) / capacity))) wa in
           let wc := yield wb in
           update (assign Ref_reservation_total
                     (u64 (deref Ref_reservation_total (conn wc)
                           - u64 (bytes * WT_BILLION) / total_capacity))) wc).
Proof.
  unfold steal_slice.
  unfold bind at 1. unfold WT_ASSERT.
  unfold bind at 1. unfold reservation_ns at 1. unfold WT_RESERVATION_NS at 1.
  destruct (victim_capacity =? 0) eqn:Evc.
  - simpl negb. cbv iota. intros H. discriminate H.
  - simpl negb. cbv iota.
    unfold bind at 1. unfold __wt_atomic_casv64. cbv zeta.
    destruct (deref victim (conn (yield w)) =? best) eqn:Ecas.
    + simpl negb. cbv iota. intros H.
      apply bind_done in H. destruct H as (back & w1 & _ & H).
      apply bind_done in H. destruct H as (rv & w2 & _ & H).
      discriminate H.
    + simpl negb. cbv iota.
      unfold bind at 1. unfold reservation_ns at 1.
      unfold WT_RESERVATION_NS at 1.
      destruct (Z.eqb_spec capacity 0) as [Hc0|Hc].
      * intros H. discriminate H.
      * unfold bind at 1. unfold __wt_atomic_sub64 at 1. cbv zeta.
        unfold bind at 1. unfold reservation_ns at 1.
        unfold WT_RESERVATION_NS at 1.
        destruct (Z.eqb_spec total_capacity 0) as [Ht0|Ht].
        -- intros H. discriminate H.
        -- unfold bind, __wt_atomic_sub64, ret. cbv zeta.
           intros H. injection H as Hst Hsc Hw.
           apply Z.eqb_neq in Ecas.
           repeat split; auto.
Qed.

(** A pass that asks for another one has tried the steal and lost the
    compare-and-swap. *)
Lemma pass_goto_again
  (type : WT_THROTTLE_TYPE) (bytes capacity total_capacity now_ns : Z)
  (sc : Z) (w w' : world) (st' : option clock_ref) (sc' : Z) :
  throttle_pass type bytes capacity total_capacity now_ns None sc w
  = Done (GotoAgain st' sc') w' ->
  exists (victim : clock_ref) (best : Z) (wc : world),
    st' = Some victim
    /\ capacity <> 0 /\ total_capacity <> 0
    /\ deref victim (conn (yield wc)) <> best
    /\ w' = (let wa := yield (yield wc) in
             let wb :=
               update (assign (reservation_of type)
                         (u64 (deref (reservation_of type) (conn wa)
                               - u64 (bytes * WT_BILLION) / capacity))) wa in
             let wd := yield wb in
             update (assign Ref_reservation_total
                       (u64 (deref Ref_reservation_total (conn wd)
                             - u64 (bytes * WT_BILLION) / total_capacity)))
               wd).
Proof.
  unfold throttle_pass. intros H.
  apply bind_done in H. destruct H as (rv & w1 & _ & H).
  apply bind_done in H. destruct H as (rtv & w2 & _ & H).
  destruct ((rv >? now_ns) && (rtv <? now_ns) && negb (total_capacity =? 0)).
  - apply bind_done in H. destruct H as (s1 & w3 & _ & H).
    apply bind_done in H. destruct H as (s2 & w4 & _ & H).
    apply bind_done in H. destruct H as (s3 & w5 & _ & H).
    apply bind_done in H. destruct H as (s4 & w6 & _ & H).
    destruct (steal s4) as [victim|].
    + apply steal_slice_failure in H.
      destruct H as (Hst & Hc & Ht & Hcas & Hw).
      exists victim, (best_res s4), w6. repeat split; assumption.
    + discriminate H.
  - discriminate H.
Qed.

Lemma throttle_again_S (fuel : nat) (type : WT_THROTTLE_TYPE)
  (bytes capacity total_capacity now_ns : Z)
  (st : option clock_ref) (sc : Z) (w : world) :
  throttle_again (S fuel) type bytes capacity total_capacity now_ns st sc w
  = match throttle_pass type bytes capacity total_capacity now_ns st sc w with
    | Done (GotoAgain st' sc') w' =>
        throttle_again fuel type bytes capacity total_capacity now_ns
          st' sc' w'
    | Done (FallThrough rv rtv) w' => Done (rv, rtv) w'
    | Crash f w' => Crash f w'
    | OutOfFuel => OutOfFuel
    end.
Proof.
  simpl. unfold bind.
  destruct (throttle_pass type bytes capacity total_capacity now_ns st sc w)
    as [[st' sc'|rv rtv] w'| |]; reflexivity.
Qed.

(** With [steal] set, one pass ends the loop. *)
Lemma throttle_again_retry (fuel : nat) (type : WT_THROTTLE_TYPE)
  (bytes capacity total_capacity now_ns : Z)
  (victim : clock_ref) (sc : Z) (w : world) :
  throttle_again (S fuel) type bytes capacity total_capacity now_ns
    (Some victim) sc w
  = throttle_again 1 type bytes capacity total_capacity now_ns
      (Some victim) sc w
  /\ throttle_again 1 type bytes capacity total_capacity now_ns
       (Some victim) sc w <> OutOfFuel.
Proof.
  rewrite !throttle_again_S.
  pose proof (finishes_pass type bytes capacity total_capacity now_ns
                (Some victim) sc w) as Hfin.
  pose proof (pass_after_steal_falls_through type bytes capacity
                total_capacity now_ns victim sc w) as Hfall.
  destruct (throttle_pass type bytes capacity total_capacity now_ns
              (Some victim) sc w) as [[st' sc'|rv rtv] w'| |].
  - exfalso. apply (Hfall w' st' sc'). reflexivity.
  - split; [reflexivity | discriminate].
  - split; [reflexivity | discriminate].
  - contradiction.
Qed.

(** Two passes end the loop whatever the other threads do. *)
Lemma throttle_again_two (fuel : nat) (type : WT_THROTTLE_TYPE)
  (bytes capacity total_capacity now_ns : Z) (sc : Z) (w : world) :
  (2 <= fuel)%nat ->
  throttle_again fuel type bytes capacity total_capacity now_ns None sc w
  = throttle_again 2 type bytes capacity total_capacity now_ns None sc w
  /\ throttle_again 2 type bytes capacity total_capacity now_ns None sc w
     <> OutOfFuel.
Proof.
  intros Hfuel.
  destruct fuel as [|[|fuel]]; try lia.
  rewrite (throttle_again_S (S fuel)), (throttle_again_S 1).
  pose proof (finishes_pass type bytes capacity total_capacity now_ns
                None sc w) as Hfin.
  destruct (throttle_pass type bytes capacity total_capacity now_ns None sc w)
    as [[st' sc'|rv rtv] w'| |] eqn:Epass.
  - destruct (pass_goto_again _ _ _ _ _ _ _ _ _ _ Epass)
      as (victim & best & wc & Hst & _).
    subst st'.
    destruct (throttle_again_retry fuel type bytes capacity total_capacity
                now_ns victim sc' w') as [Heq Hne].
    split; [exact Heq | exact Hne].
  - split; [reflexivity | discriminate].
  - split; [reflexivity | discriminate].
  - contradiction.
Qed.

Lemma finishes_again_two (type : WT_THROTTLE_TYPE)
  (bytes capacity total_capacity now_ns : Z) :
  finishes (throttle_again 2 type bytes capacity total_capacity now_ns None 0).
Proof.
  intros w.
  apply (throttle_again_two 2 type bytes capacity total_capacity now_ns 0 w).
  lia.
Qed.







(** The second pass is needed: in the contested world one pass is not
    enough, and the two passes end in the sleep of the caller's own
    reservation, the victim's clock being left to the thread that moved
    it. *)
Example contested_steal_retries :
  __wt_capacity_throttle 1 at_100s 4096 WT_THROTTLE_LOG contested_world
  = OutOfFuel
  /\ exists w',
       __wt_capacity_throttle 2 at_100s 4096 WT_THROTTLE_LOG contested_world
       = Done tt w'
       /\ trace w' = [EvSleep 0 202048]
       /\ reservation_ckpt (conn w') = 7
       /\ reservation_log (conn w') = 100202048000
       /\ reservation_total (conn w') = 99500409600.
Proof.
  split.
  - vm_compute. reflexivity.
  - eexists. split; [vm_compute; reflexivity|].
    repeat split; reflexivity.
Qed.

(** The pass that loses the compare-and-swap gives its two reservations
    back: the log clock and the clock of the total are where they were, and
    the pass asks for another one with [steal] set. *)
Example contested_pass_gives_up :
  exists w',
    throttle_pass WT_THROTTLE_LOG 4096 2000000 10000000 100000000000 None 0
      contested_pass_world
    = Done (GotoAgain (Some Ref_reservation_ckpt) 1000000) w'
    /\ reservation_ckpt (conn w') = 7
    /\ reservation_log (conn w') = reservation_log busy_log_connection
    /\ reservation_total (conn w') = reservation_total busy_log_connection.
Proof.
  eexists. split; [vm_compute; reflexivity|].
  repeat split; reflexivity.
Qed.

(** Without contention the same call steals from the checkpoint clock and
    sleeps less. *)
Example uncontested_steal :
  exists w',
    __wt_capacity_throttle 2 at_100s 4096 WT_THROTTLE_LOG
      (alone busy_log_connection) = Done tt w'
    /\ trace w' = [EvSleep 0 170798]
    /\ reservation_ckpt (conn w') = 99066596000
    /\ reservation_log (conn w') = 100170798000.
Proof.
  eexists. split; [vm_compute; reflexivity|].
  repeat split; reflexivity.
Qed.

(** ** The uncapped fast path *)

(** One call on a class without capacity, no total capacity, no other
    thread: only the call counter of the class moves. *)
Lemma throttle_uncapped_alone
  (fuel : nat) (now : timespec) (bytes : Z) (type : WT_THROTTLE_TYPE)
  (c : WT_CONNECTION_IMPL) (t : list event) :
  capacity_of type c = 0 ->
  capacity_total c = 0 ->
  __wt_capacity_throttle fuel now bytes type
    {| conn := c; others := []; trace := t |}
  = Done tt
      {| conn := set_stats (Stat.incrv (calls_stat type) 1 (stats c)) c;
         others := []; trace := t |}.
Proof.
  intros Hcap Htot.
  unfold __wt_capacity_throttle, bind, load, WT_STAT_CONN_INCR,
    WT_STAT_CONN_INCRV, yield, update.
  cbn [conn others trace].
  rewrite Hcap.
  replace (capacity_total
             (set_stats (Stat.incrv (calls_stat type) 1 (stats c)) c))
    with 0 by (symmetry; exact Htot).
  reflexivity.
Qed.

Lemma throttle_calls_uncapped
  (fuel : nat) (bytes : Z) (type : WT_THROTTLE_TYPE) (nows : list timespec) :
  forall (c : WT_CONNECTION_IMPL) (t : list event),
  capacity_of type c = 0 ->
  capacity_total c = 0 ->
  exists c',
    throttle_calls fuel nows bytes type
      {| conn := c; others := []; trace := t |}
    = Done tt {| conn := c'; others := []; trace := t |}
    /\ (forall r, deref r c' = deref r c)
    /\ capacity_written c' = capacity_written c
    /\ stats c' Stat.capacity_bytes_written
       = stats c Stat.capacity_bytes_written
    /\ stats c' (calls_stat type)
       = stats c (calls_stat type) + Z.of_nat (length nows).
Proof.
  induction nows as [|now rest IH]; intros c t Hcap Htot.
  - exists c. split; [reflexivity|]. repeat split; try reflexivity.
    simpl. lia.
  - destruct (IH (set_stats (Stat.incrv (calls_stat type) 1 (stats c)) c) t)
      as (c' & Hrun & Hclk & Hwr & Hbw & Hcalls).
    + destruct type; exact Hcap.
    + exact Htot.
    + exists c'. split.
      * simpl throttle_calls. unfold bind at 1.
        rewrite (throttle_uncapped_alone fuel now bytes type c t Hcap Htot).
        exact Hrun.
      * split; [|split; [|split]].
        -- intros r. rewrite Hclk. destruct r; reflexivity.
        -- rewrite Hwr. reflexivity.
        -- rewrite Hbw. destruct type; reflexivity.
        -- rewrite Hcalls. simpl length. rewrite Nat2Z.inj_succ.
           destruct type; cbn; lia.
Qed.

(** C1, as the code has it: with the capacity of the class and the total
    capacity both zero, any number of calls by a thread that runs alone
    sleeps never, leaves every reservation clock, [capacity_written] and
    the counter [capacity_bytes_written] as they were, and adds one per
    call to the call counter of the class. *)
Theorem throttle_uncapped_fast_path
  (fuel : nat) (nows : list timespec) (bytes : Z) (type : WT_THROTTLE_TYPE)
  (c : WT_CONNECTION_IMPL) :
  capacity_of type c = 0 ->
  capacity_total c = 0 ->
  exists c',
    throttle_calls fuel nows bytes type (alone c) = Done tt (alone c')
    /\ sleeps (trace (alone c')) = []
    /\ (forall r, deref r c' = deref r c)
    /\ capacity_written c' = capacity_written c
    /\ stats c' Stat.capacity_bytes_written
       = stats c Stat.capacity_bytes_written
    /\ stats c' (calls_stat type)
       = stats c (calls_stat type) + Z.of_nat (length nows).
Proof.
  intros Hcap Htot.
  destruct (throttle_calls_uncapped fuel bytes type nows c [] Hcap Htot)
    as (c' & Hrun & Hrest).
  exists c'. split; [exact Hrun|]. split; [reflexivity | exact Hrest].
Qed.

Lemma throttle_uncapped_fast_path_witness :
  exists c',
    throttle_calls 2 (repeat in_2023 100) 4096 WT_THROTTLE_LOG
      (alone fresh_connection) = Done tt (alone c')
    /\ stats c' Stat.capacity_bytes_written = 0
    /\ stats c' Stat.capacity_log_calls = 100.
Proof.
  destruct (throttle_uncapped_fast_path 2 (repeat in_2023 100) 4096
              WT_THROTTLE_LOG fresh_connection eq_refl eq_refl)
    as (c' & Hrun & _ & _ & _ & Hbw & Hcalls).
  exists c'. split; [exact Hrun|]. split; [exact Hbw | exact Hcalls].
Defined.

(** C1, as the claim states it, fails: after 100 calls of 4096 bytes on
    the log class of an unconfigured connection the counter
    [capacity_bytes_written] is 0 and not 409600, the early return being
    taken before the bytes are counted. *)
Lemma throttle_uncapped_counterexample :
  exists w',
    throttle_calls 2 (repeat in_2023 100) 4096 WT_THROTTLE_LOG
      (alone fresh_connection) = Done tt w'
    /\ sleeps (trace w') = []
    /\ stats (conn w') Stat.capacity_bytes_written = 0
    /\ stats (conn w') Stat.capacity_bytes_written <> 409600.
Proof.
  eexists. split; [vm_compute; reflexivity|].
  split; [reflexivity|]. split; [reflexivity|].
  vm_compute. discriminate.
Qed.

(** ** Class capacities of zero under a total capacity *)

(** X22: A total whose products with the percentages fit in 64 bits, and
    of at least 10 bytes per second, gives every class a capacity: the
    assertions of the throttle rest on this. *)
Lemma capacity_config_classes_nonzero
  (WT_THROTTLE_MIN : Z) (c : WT_CONNECTION_IMPL) (total : Z) :
  10 <= total -> WT_THROTTLE_MIN <= total -> total * 60 < UINT64_MODULUS ->
  exists c',
    __capacity_config WT_THROTTLE_MIN c (0, total) = (0, c')
    /\ capacity_total c' = total
    /\ 0 < capacity_ckpt c' /\ 0 < capacity_evict c'
    /\ 0 < capacity_log c' /\ 0 < capacity_read c'.
Proof.
  intros Hten Hmin Hfit. unfold __capacity_config.
  change (negb (0 =? 0)) with false. cbv iota.
  replace (total <? WT_THROTTLE_MIN) with false
    by (symmetry; apply Z.ltb_ge; exact Hmin).
  rewrite andb_false_r.
  assert (Hu : u64 total = total)
    by (apply u64_small; unfold UINT64_MODULUS in *; lia).
  rewrite Hu.
  replace (total =? 0) with false by (symmetry; apply Z.eqb_neq; lia).
  simpl negb. cbv iota.
  eexists. split; [reflexivity|]. simpl.
  unfold WT_CAPACITY, WT_CAP_CKPT, WT_CAP_EVICT, WT_CAP_LOG, WT_CAP_READ.
  rewrite !u64_small by (unfold UINT64_MODULUS in *; lia).
  split; [reflexivity|].
  repeat split; apply Z.div_str_pos; lia.
Qed.

(** A class without capacity never enters the steal phase: its reservation
    is the current time, which is not in the future. *)
Lemma pass_without_capacity
  (type : WT_THROTTLE_TYPE) (bytes total_capacity now_ns sc : Z) (w : world) :
  throttle_pass type bytes 0 total_capacity now_ns None sc w
  = (res_total_value <-
       __capacity_reserve Ref_reservation_total bytes total_capacity now_ns ;;
     ret (FallThrough now_ns res_total_value)) w.
Proof.
  unfold throttle_pass, __capacity_reserve at 1.
  change (negb (0 =? 0)) with false. cbv iota.
  unfold bind at 1. unfold ret at 1.
  apply bind_cong_r. intros rtv w1.
  replace (now_ns >? now_ns) with false
    by (symmetry; rewrite Z.gtb_ltb; apply Z.ltb_irrefl).
  reflexivity.
Qed.

Lemma bind_crash {A B : Type} (m : M A) (k : A -> M B) (w w' : world)
  (f : fault) :
  bind m k w = Crash f w' ->
  m w = Crash f w' \/ exists a w1, m w = Done a w1 /\ k a w1 = Crash f w'.
Proof.
  unfold bind. destruct (m w) as [a w1|f1 w1|]; intros H.
  - right. exists a, w1. split; [reflexivity | exact H].
  - left. injection H as Hf Hw. subst f1 w1. reflexivity.
  - discriminate H.
Qed.

(** The division of a reservation is guarded by the test of the
    capacity. *)
Lemma reserve_never_crashes
  (r : clock_ref) (bytes capacity now_ns : Z) (w w' : world) (f : fault) :
  __capacity_reserve r bytes capacity now_ns w <> Crash f w'.
Proof.
  unfold __capacity_reserve, bind, reservation_ns, WT_RESERVATION_NS.
  destruct (capacity =? 0).
  - discriminate.
  - change (negb false) with true. unfold __wt_atomic_add64.
    cbv beta iota zeta.
    match goal with
    | |- context [if ?b then _ else _] => destruct b
    end; discriminate.
Qed.

Lemma scan_never_crashes
  (type victim : WT_THROTTLE_TYPE) (s : scan_state) (w w' : world)
  (f : fault) :
  scan_victim type victim s w <> Crash f w'.
Proof.
  unfold scan_victim, bind, load, ret.
  destruct (negb (type_eqb type victim)); [|discriminate].
  cbv zeta.
  destruct (deref (reservation_of victim) (conn (yield w)) <? best_res s);
    discriminate.
Qed.

(** With the caller's capacity and the total capacity not zero, the slice
    crashes only on a victim without capacity, right after the failed
    assertion. *)
Lemma steal_slice_crash
  (reservation victim : clock_ref)
  (bytes capacity total_capacity now_ns : Z)
  (victim_capacity best rtv : Z) (w w' : world) (f : fault) :
  capacity <> 0 -> total_capacity <> 0 ->
  steal_slice reservation victim bytes capacity total_capacity now_ns
    victim_capacity best rtv w = Crash f w' ->
  victim_capacity = 0
  /\ f = DivisionByZero
  /\ w' = emit (EvAssertFailed Assert_steal_capacity_nonzero) w.
Proof.
  intros Hc Ht. unfold steal_slice.
  unfold bind at 1. unfold WT_ASSERT.
  unfold bind at 1. unfold reservation_ns at 1. unfold WT_RESERVATION_NS at 1.
  destruct (Z.eqb_spec victim_capacity 0) as [Hv0|Hv].
  - simpl negb. cbv iota. intros H. injection H as Hf Hw.
    repeat split; auto.
  - simpl negb. cbv iota.
    unfold bind, __wt_atomic_casv64, reservation_ns, WT_RESERVATION_NS,
      __wt_atomic_sub64, ret.
    cbv zeta.
    replace (capacity =? 0) with false
      by (symmetry; apply Z.eqb_neq; exact Hc).
    replace (total_capacity =? 0) with false
      by (symmetry; apply Z.eqb_neq; exact Ht).
    destruct (deref victim (conn (yield w)) =? best);
      simpl negb; cbv iota; intros H; discriminate H.
Qed.

(** The true part of C10: whatever the other threads do, a pass crashes
    only by dividing by the capacity of a victim, after the assertion on
    that capacity has failed; the caller's capacity and the total capacity
    are never zero divisors. *)
Lemma pass_crash_is_victim
  (type : WT_THROTTLE_TYPE) (bytes capacity total_capacity now_ns : Z)
  (st : option clock_ref) (sc : Z) (w w' : world) (f : fault) :
  throttle_pass type bytes capacity total_capacity now_ns st sc w
  = Crash f w' ->
  f = DivisionByZero
  /\ exists wc, w' = emit (EvAssertFailed Assert_steal_capacity_nonzero) wc.
Proof.
  destruct st as [victim0|].
  - unfold throttle_pass. intros H.
    apply bind_crash in H. destruct H as [H|(rv & w1 & _ & H)].
    + exfalso. exact (reserve_never_crashes _ _ _ _ _ _ _ H).
    + apply bind_crash in H. destruct H as [H|(rtv & w2 & _ & H)].
      * exfalso. exact (reserve_never_crashes _ _ _ _ _ _ _ H).
      * discriminate H.
  - destruct (Z.eqb_spec capacity 0) as [Hc0|Hc].
    + subst capacity. rewrite pass_without_capacity. intros H.
      apply bind_crash in H. destruct H as [H|(rtv & w2 & _ & H)].
      * exfalso. exact (reserve_never_crashes _ _ _ _ _ _ _ H).
      * discriminate H.
    + unfold throttle_pass. intros H.
      apply bind_crash in H. destruct H as [H|(rv & w1 & _ & H)].
      { exfalso. exact (reserve_never_crashes _ _ _ _ _ _ _ H). }
      apply bind_crash in H. destruct H as [H|(rtv & w2 & _ & H)].
      { exfalso. exact (reserve_never_crashes _ _ _ _ _ _ _ H). }
      destruct (Z.eqb_spec total_capacity 0) as [Ht0|Ht].
      { rewrite andb_false_r in H. discriminate H. }
      destruct ((rv >? now_ns) && (rtv <? now_ns) && negb false);
        [|discriminate H].
      apply bind_crash in H. destruct H as [H|(s1 & w3 & _ & H)].
      { exfalso. exact (scan_never_crashes _ _ _ _ _ _ H). }
      apply bind_crash in H. destruct H as [H|(s2 & w4 & _ & H)].
      { exfalso. exact (scan_never_crashes _ _ _ _ _ _ H). }
      apply bind_crash in H. destruct H as [H|(s3 & w5 & _ & H)].
      { exfalso. exact (scan_never_crashes _ _ _ _ _ _ H). }
      apply bind_crash in H. destruct H as [H|(s4 & w6 & _ & H)].
      { exfalso. exact (scan_never_crashes _ _ _ _ _ _ H). }
      destruct (steal s4) as [victim|]; [|discriminate H].
      apply (steal_slice_crash _ _ _ _ _ _ _ _ _ _ _ _ Hc Ht) in H.
      destruct H as (_ & Hf & Hw).
      split; [exact Hf|]. exists w6. exact Hw.
Qed.

(** C9, at an input that breaks it: the accepted total 307445734561825861
    makes the 64-bit product [total * 60] wrap to 44, so the eviction and
    read capacities are 0 under a total capacity that is not; a read call
    passes the early return and the assertion [capacity != 0] fails. *)
Theorem capacity_assertion_overflow (WT_THROTTLE_MIN : Z) :
  WT_THROTTLE_MIN <= 307445734561825861 ->
  exists c w',
    __capacity_config WT_THROTTLE_MIN fresh_connection
      (0, 307445734561825861) = (0, c)
    /\ capacity_total c = 307445734561825861
    /\ capacity_evict c = 0
    /\ capacity_read c = 0
    /\ __wt_capacity_throttle 2 in_2023 4096 WT_THROTTLE_READ (alone c)
       = Done tt w'
    /\ trace w' = [EvAssertFailed Assert_capacity_nonzero].
Proof.
  intros Hmin. unfold __capacity_config.
  change (negb (0 =? 0)) with false. cbv iota.
  replace (307445734561825861 <? WT_THROTTLE_MIN) with false
    by (symmetry; apply Z.ltb_ge; exact Hmin).
  rewrite andb_false_r.
  eexists. eexists. split; [reflexivity|].
  split; [reflexivity|]. split; [reflexivity|]. split; [reflexivity|].
  split; [vm_compute; reflexivity|]. reflexivity.
Qed.

Lemma capacity_assertion_overflow_witness :
  exists c w',
    __capacity_config 1048576 fresh_connection (0, 307445734561825861)
    = (0, c)
    /\ capacity_read c = 0
    /\ __wt_capacity_throttle 2 in_2023 4096 WT_THROTTLE_READ (alone c)
       = Done tt w'
    /\ trace w' = [EvAssertFailed Assert_capacity_nonzero].
Proof.
  destruct (capacity_assertion_overflow 1048576)
    as (c & w' & Hcfg & _ & _ & Hread & Hrun & Htrace).
  - lia.
  - exists c, w'. repeat split; assumption.
Defined.

(** C10, at an input that breaks it: the accepted total
    1844674407370955164 makes [total * 10] wrap to 24 and [total * 60] to
    144, so the checkpoint capacity is 0 and the read capacity 1.  The
    second of two read calls of 10 bytes finds its clock in the future,
    selects the idle checkpoint clock as the victim, fails the assertion
    [steal_capacity != 0] and divides by the victim's zero capacity. *)
Theorem steal_capacity_overflow (WT_THROTTLE_MIN : Z) :
  WT_THROTTLE_MIN <= 1844674407370955164 ->
  exists c w',
    __capacity_config WT_THROTTLE_MIN fresh_connection
      (0, 1844674407370955164) = (0, c)
    /\ capacity_total c = 1844674407370955164
    /\ capacity_ckpt c = 0
    /\ capacity_read c = 1
    /\ throttle_calls 2 [in_2023; in_2023] 10 WT_THROTTLE_READ (alone c)
       = Crash DivisionByZero w'
    /\ trace w' = [EvAssertFailed Assert_steal_capacity_nonzero].
Proof.
  intros Hmin. unfold __capacity_config.
  change (negb (0 =? 0)) with false. cbv iota.
  replace (1844674407370955164 <? WT_THROTTLE_MIN) with false
    by (symmetry; apply Z.ltb_ge; exact Hmin).
  rewrite andb_false_r.
  eexists. eexists. split; [reflexivity|].
  split; [reflexivity|]. split; [reflexivity|]. split; [reflexivity|].
  split; [vm_compute; reflexivity|]. reflexivity.
Qed.

Lemma steal_capacity_overflow_witness :
  exists c w',
    __capacity_config 1048576 fresh_connection (0, 1844674407370955164)
    = (0, c)
    /\ capacity_ckpt c = 0
    /\ throttle_calls 2 [in_2023; in_2023] 10 WT_THROTTLE_READ (alone c)
       = Crash DivisionByZero w'
    /\ trace w' = [EvAssertFailed Assert_steal_capacity_nonzero].
Proof.
  destruct (steal_capacity_overflow 1048576)
    as (c & w' & Hcfg & _ & Hckpt & _ & Hrun & Htrace).
  - lia.
  - exists c, w'. repeat split; assumption.
Defined.

(** * Further properties of the capacity module *)

(** ** Configuration *)

(** X1: A configuration call that returns an error leaves the connection as it
    was, whatever the error: the code of a failed lookup is passed on, and
    [EINVAL] is returned for a value that is not zero and below the
    minimum. *)
Theorem capacity_config_error_atomic
  (WT_THROTTLE_MIN : Z) (c : WT_CONNECTION_IMPL) (gets : Z * Z) :
  fst (__capacity_config WT_THROTTLE_MIN c gets) <> 0 ->
  snd (__capacity_config WT_THROTTLE_MIN c gets) = c
  /\ (fst (__capacity_config WT_THROTTLE_MIN c gets) = fst gets
      \/ (fst gets = 0
          /\ snd gets <> 0 /\ snd gets < WT_THROTTLE_MIN
          /\ fst (__capacity_config WT_THROTTLE_MIN c gets) = EINVAL)).
Proof.
  destruct gets as [rc val]. unfold __capacity_config.
  destruct (Z.eqb_spec rc 0) as [Hrc|Hrc]; cbn [negb fst snd].
  - destruct (Z.eqb_spec val 0) as [Hv|Hv]; cbn [negb andb].
    + intros H. exfalso. apply H. reflexivity.
    + destruct (Z.ltb_spec val WT_THROTTLE_MIN) as [Hlt|Hge].
      * intros _. split; [reflexivity|]. right. repeat split; assumption.
      * intros H. exfalso. apply H. reflexivity.
  - intros _. split; [reflexivity|]. left. reflexivity.
Qed.

Lemma capacity_config_error_atomic_witness :
  snd (__capacity_config 1048576 busy_log_connection (0, -5))
  = busy_log_connection.
Proof.
  apply (capacity_config_error_atomic 1048576 busy_log_connection (0, -5)).
  vm_compute. discriminate.
Defined.

(** X2: A successful configuration repeated with the same value changes
    nothing: the capacities, the threshold and the published statistic are
    the same after the second call as after the first. *)
Theorem capacity_config_idempotent
  (WT_THROTTLE_MIN : Z) (c c1 : WT_CONNECTION_IMPL) (gets : Z * Z) :
  __capacity_config WT_THROTTLE_MIN c gets = (0, c1) ->
  exists c2,
    __capacity_config WT_THROTTLE_MIN c1 gets = (0, c2)
    /\ capacity_total c2 = capacity_total c1
    /\ capacity_ckpt c2 = capacity_ckpt c1
    /\ capacity_evict c2 = capacity_evict c1
    /\ capacity_log c2 = capacity_log c1
    /\ capacity_read c2 = capacity_read c1
    /\ capacity_threshold c2 = capacity_threshold c1
    /\ (forall k, stats c2 k = stats c1 k).
Proof.
  destruct gets as [rc val]. unfold __capacity_config.
  destruct (Z.eqb_spec rc 0) as [Hrc|Hrc]; cbn [negb].
  - destruct (negb (val =? 0) && (val <? WT_THROTTLE_MIN)).
    + intros H. discriminate H.
    + intros H. injection H as Hc1. subst c1.
      eexists. split; [reflexivity|].
      destruct (u64 val =? 0); cbn;
        (repeat split; try reflexivity; intros k;
         unfold Stat.set; destruct (Stat.eqb Stat.capacity_threshold k);
         reflexivity).
  - intros H. injection H as Hcode _. contradiction.
Qed.

Lemma capacity_config_idempotent_witness :
  exists c2,
    __capacity_config 1048576
      (snd (__capacity_config 1048576 fresh_connection (0, 10000000)))
      (0, 10000000) = (0, c2)
    /\ capacity_threshold c2 = 900000.
Proof.
  destruct (capacity_config_idempotent 1048576 fresh_connection
              (snd (__capacity_config 1048576 fresh_connection (0, 10000000)))
              (0, 10000000) eq_refl)
    as (c2 & Hrun & _ & _ & _ & _ & _ & Hthr & _).
  exists c2. split; [exact Hrun|]. rewrite Hthr. reflexivity.
Defined.

(** X3: Configuring a total of zero does not uncap the classes: it clears
    [capacity_total] and keeps the four class capacities of the connection,
    and the threshold is computed again from the capacities kept. *)
Theorem capacity_config_zero_keeps_classes
  (WT_THROTTLE_MIN : Z) (c : WT_CONNECTION_IMPL) :
  exists c',
    __capacity_config WT_THROTTLE_MIN c (0, 0) = (0, c')
    /\ capacity_total c' = 0
    /\ capacity_ckpt c' = capacity_ckpt c
    /\ capacity_evict c' = capacity_evict c
    /\ capacity_log c' = capacity_log c
    /\ capacity_read c' = capacity_read c
    /\ capacity_threshold c'
       = u64 (capacity_ckpt c + capacity_evict c + capacity_log c) / 100 * 10.
Proof.
  unfold __capacity_config. cbn [negb Z.eqb andb].
  eexists. split; [reflexivity|]. cbn.
  repeat split; try reflexivity.
  apply threshold_divides_first.
Qed.

(** X4: For a total of at least 10 whose product with 60 fits in 64 bits the
    class capacities are ordered, checkpoint below log below eviction,
    eviction and read equal and none above the total, the three write
    classes together take at most nine tenths of the total, and the
    threshold is a multiple of 10 within 1030/100 of nine hundredths of the
    total. *)
Theorem capacity_config_bounds
  (WT_THROTTLE_MIN : Z) (c : WT_CONNECTION_IMPL) (total : Z) :
  10 <= total -> WT_THROTTLE_MIN <= total -> total * 60 < UINT64_MODULUS ->
  exists c',
    __capacity_config WT_THROTTLE_MIN c (0, total) = (0, c')
    /\ capacity_ckpt c' <= capacity_log c' <= capacity_evict c'
    /\ capacity_evict c' = capacity_read c'
    /\ capacity_evict c' <= total
    /\ 10 * (capacity_ckpt c' + capacity_evict c' + capacity_log c')
       <= 9 * total
    /\ 9 * total - 1030 < 100 * capacity_threshold c' <= 9 * total
    /\ capacity_threshold c' mod 10 = 0.
Proof.
  intros Hten Hmin Hfit. unfold __capacity_config.
  change (negb (0 =? 0)) with false. cbv iota.
  replace (total <? WT_THROTTLE_MIN) with false
    by (symmetry; apply Z.ltb_ge; exact Hmin).
  rewrite andb_false_r.
  assert (Hu : u64 total = total)
    by (apply u64_small; unfold UINT64_MODULUS in *; lia).
  rewrite Hu.
  replace (total =? 0) with false by (symmetry; apply Z.eqb_neq; lia).
  cbn [negb]. cbv iota.
  eexists. split; [reflexivity|].
  cbn [capacity_ckpt capacity_evict capacity_log capacity_read
       capacity_threshold set_stats set_capacities].
  rewrite threshold_divides_first.
  unfold WT_CAPACITY, WT_CAP_CKPT, WT_CAP_EVICT, WT_CAP_LOG, WT_CAP_READ.
  rewrite !u64_small by (unfold UINT64_MODULUS in *; lia).
  assert (Hsum : 0 <= total * 10 / 100 + total * 60 / 100 + total * 20 / 100
                 < UINT64_MODULUS).
  { unfold UINT64_MODULUS in *. split.
    - repeat apply Z.add_nonneg_nonneg; apply Z.div_pos; lia.
    - assert (total * 10 / 100 <= total * 10) by (apply Z.div_le_upper_bound; lia).
      assert (total * 60 / 100 * 100 <= total * 60)
        by (rewrite Z.mul_comm; apply Z.mul_div_le; lia).
      assert (total * 20 / 100 * 100 <= total * 20)
        by (rewrite Z.mul_comm; apply Z.mul_div_le; lia).
      assert (total * 10 / 100 * 100 <= total * 10)
        by (rewrite Z.mul_comm; apply Z.mul_div_le; lia).
      lia. }
  rewrite (u64_small _ Hsum).
  clear Hu Hsum Hfit Hmin.
  Z.to_euclidean_division_equations. lia.
Qed.

Lemma capacity_config_bounds_witness :
  exists c',
    __capacity_config 1048576 fresh_connection (0, 10000000) = (0, c')
    /\ 100 * capacity_threshold c' <= 90000000.
Proof.
  destruct (capacity_config_bounds 1048576 fresh_connection 10000000)
    as (c' & Hrun & _ & _ & _ & _ & [_ Hthr] & _).
  - lia.
  - lia.
  - unfold UINT64_MODULUS. lia.
  - exists c'. split; [exact Hrun | exact Hthr].
Defined.

Lemma capacity_config_classes_nonzero_witness :
  exists c',
    __capacity_config 1048576 fresh_connection (0, 10000000) = (0, c')
    /\ 0 < capacity_ckpt c'.
Proof.
  destruct (capacity_config_classes_nonzero 1048576 fresh_connection 10000000)
    as (c' & Hrun & _ & Hckpt & _).
  - lia.
  - lia.
  - unfold UINT64_MODULUS. lia.
  - exists c'. split; [exact Hrun | exact Hckpt].
Defined.

(** ** Reservations, continued *)

Lemma deref_assign (r : clock_ref) (v : Z) (c : WT_CONNECTION_IMPL) :
  deref r (assign r v c) = v.
Proof.
  destruct r; reflexivity.
Qed.


(** What a reservation against a capacity does, in every world. *)
Lemma reserve_run (r : clock_ref) (bytes cap now_ns : Z) (w : world) :
  0 <= bytes < 16 * WT_GIGABYTE ->
  0 <= now_ns < UINT64_MODULUS ->
  cap <> 0 ->
  __capacity_reserve r bytes cap now_ns w
  = Done (u64 (deref r (conn (yield w)) + bytes * WT_BILLION / cap))
      (if u64 (deref r (conn (yield w)) + bytes * WT_BILLION / cap)
          <? now_ns - WT_BILLION
       then update (assign r (u64 (now_ns - WT_BILLION
                                   + bytes * WT_BILLION / cap)))
              (yield (update
                        (assign r (u64 (deref r (conn (yield w))
                                        + bytes * WT_BILLION / cap)))
                        (yield w)))
       else update
              (assign r (u64 (deref r (conn (yield w))
                              + bytes * WT_BILLION / cap)))
              (yield w)).
Proof.
  intros Hb Hn Hc. unfold __capacity_reserve.
  replace (cap =? 0) with false by (symmetry; apply Z.eqb_neq; exact Hc).
  change (negb false) with true. cbv iota.
  unfold bind at 1. unfold reservation_ns.
  rewrite (reservation_ns_exact bytes cap Hb Hc).
  unfold bind at 1. unfold __wt_atomic_add64. cbv beta zeta.
  rewrite drift_test by (try exact Hn; apply u64_range).
  rewrite u64_add_l.
  unfold bind, ret, __wt_atomic_store64.
  destruct (u64 (deref r (conn (yield w)) + bytes * WT_BILLION / cap)
            <? now_ns - WT_BILLION); reflexivity.
Qed.

(** X5: Whatever the other threads do before the last access of the call, a
    reservation against a capacity leaves the clock at or after the value
    it returns and no more than a second behind the current time. *)
Theorem capacity_reserve_bounds
  (r : clock_ref) (bytes cap now_ns : Z) (w : world) :
  0 <= bytes < 16 * WT_GIGABYTE ->
  0 <= now_ns < UINT64_MODULUS ->
  0 < cap ->
  now_ns - WT_BILLION + bytes * WT_BILLION / cap < UINT64_MODULUS ->
  exists v w',
    __capacity_reserve r bytes cap now_ns w = Done v w'
    /\ 0 <= v < UINT64_MODULUS
    /\ v <= deref r (conn w')
    /\ now_ns - WT_BILLION <= deref r (conn w').
Proof.
  intros Hb Hn Hc Hfit.
  rewrite (reserve_run r bytes cap now_ns w Hb Hn) by lia.
  set (v := u64 (deref r (conn (yield w)) + bytes * WT_BILLION / cap)).
  assert (Hv : 0 <= v < UINT64_MODULUS) by apply u64_range.
  assert (Hslot : 0 <= bytes * WT_BILLION / cap).
  { apply Z.div_pos; [unfold WT_BILLION; lia | exact Hc]. }
  eexists. eexists. split; [reflexivity|]. split; [exact Hv|].
  destruct (Z.ltb_spec v (now_ns - WT_BILLION)) as [Hdrift|Hfresh].
  - cbn [conn update]. rewrite deref_assign.
    rewrite u64_small by lia. lia.
  - cbn [conn update]. rewrite deref_assign. lia.
Qed.

Lemma capacity_reserve_bounds_witness :
  exists v w',
    __capacity_reserve Ref_reservation_log 4096 2000000 100000000000
      (alone fresh_connection) = Done v w'
    /\ 99000000000 <= reservation_log (conn w').
Proof.
  destruct (capacity_reserve_bounds Ref_reservation_log 4096 2000000
              100000000000 (alone fresh_connection))
    as (v & w' & Hrun & _ & _ & Hbound).
  - unfold WT_GIGABYTE. lia.
  - unfold UINT64_MODULUS. lia.
  - lia.
  - vm_compute. reflexivity.
  - exists v, w'. split; [exact Hrun | exact Hbound].
Defined.

Lemma yield_alone (w : world) : others w = [] -> yield w = w.
Proof.
  destruct w as [c o t]. simpl. intros Ho. subst o. reflexivity.
Qed.

(** X6: Two reservations made one after the other on the same clock, with no
    other thread in between and no 64-bit overflow, are ordered: the
    second is at least the first plus its own slot. *)
Theorem capacity_reserve_ordered
  (r : clock_ref) (bytes1 bytes2 cap now1 now2 : Z) (w : world) :
  others w = [] ->
  0 <= bytes1 < 16 * WT_GIGABYTE ->
  0 <= bytes2 < 16 * WT_GIGABYTE ->
  0 <= now1 < UINT64_MODULUS ->
  0 <= now2 < UINT64_MODULUS ->
  0 < cap ->
  0 <= deref r (conn w) ->
  deref r (conn w) + bytes1 * WT_BILLION / cap + bytes2 * WT_BILLION / cap
  < UINT64_MODULUS ->
  now1 + bytes1 * WT_BILLION / cap + bytes2 * WT_BILLION / cap
  < UINT64_MODULUS ->
  exists v1 v2 w',
    (v1 <- __capacity_reserve r bytes1 cap now1 ;;
     v2 <- __capacity_reserve r bytes2 cap now2 ;;
     ret (v1, v2)) w = Done (v1, v2) w'
    /\ v1 + bytes2 * WT_BILLION / cap <= v2.
Proof.
  intros Ho Hb1 Hb2 Hn1 Hn2 Hc Hclk Hfit Hfitn.
  assert (Hs1 : 0 <= bytes1 * WT_BILLION / cap)
    by (apply Z.div_pos; [unfold WT_BILLION; lia | exact Hc]).
  assert (Hs2 : 0 <= bytes2 * WT_BILLION / cap)
    by (apply Z.div_pos; [unfold WT_BILLION; lia | exact Hc]).
  unfold bind at 1.
  rewrite (reserve_run r bytes1 cap now1 w Hb1 Hn1) by lia.
  rewrite (yield_alone w Ho).
  rewrite (u64_small (deref r (conn w) + bytes1 * WT_BILLION / cap)) by lia.
  set (v1 := deref r (conn w) + bytes1 * WT_BILLION / cap).
  destruct (Z.ltb_spec v1 (now1 - WT_BILLION)) as [Hdrift|Hfresh].
  - rewrite (yield_alone (update (assign r v1) w)) by exact Ho.
    unfold bind at 1.
    rewrite (reserve_run r bytes2 cap now2 _ Hb2 Hn2) by lia.
    rewrite yield_alone by exact Ho.
    cbn [conn update]. rewrite deref_assign.
    rewrite (u64_small (now1 - WT_BILLION + bytes1 * WT_BILLION / cap))
      by (unfold WT_BILLION in *; lia).
    unfold bind, ret.
    eexists. eexists. eexists. split; [reflexivity|].
    rewrite u64_small by (unfold WT_BILLION in *; lia). lia.
  - unfold bind at 1.
    rewrite (reserve_run r bytes2 cap now2 _ Hb2 Hn2) by lia.
    rewrite yield_alone by exact Ho.
    cbn [conn update]. rewrite deref_assign.
    unfold bind, ret.
    eexists. eexists. eexists. split; [reflexivity|].
    rewrite u64_small by (unfold v1; lia). lia.
Qed.

Lemma capacity_reserve_ordered_witness :
  exists v1 v2 w',
    (v1 <- __capacity_reserve Ref_reservation_log 500000 1000000 0 ;;
     v2 <- __capacity_reserve Ref_reservation_log 500000 1000000 0 ;;
     ret (v1, v2)) (alone fresh_connection) = Done (v1, v2) w'
    /\ v1 + 500000 * WT_BILLION / 1000000 <= v2.
Proof.
  apply (capacity_reserve_ordered Ref_reservation_log 500000 500000 1000000
           0 0 (alone fresh_connection)).
  - reflexivity.
  - unfold WT_GIGABYTE. lia.
  - unfold WT_GIGABYTE. lia.
  - unfold UINT64_MODULUS. lia.
  - unfold UINT64_MODULUS. lia.
  - lia.
  - vm_compute. discriminate.
  - vm_compute. reflexivity.
  - vm_compute. reflexivity.
Defined.

(** ** Outcomes of computations *)

Lemma wp_ret {A : Type} (a : A) (Q : A -> world -> Prop)
  (E : fault -> world -> Prop) (w : world) :
  Q a w -> wp (ret a) Q E w.
Proof.
  intros H. exact H.
Qed.

Lemma wp_bind {A B : Type} (m : M A) (k : A -> M B) (Q : B -> world -> Prop)
  (E : fault -> world -> Prop) (w : world) :
  wp m (fun a w1 => wp (k a) Q E w1) E w -> wp (bind m k) Q E w.
Proof.
  unfold wp, bind. destruct (m w) as [a w1|f w1|]; intros H; exact H.
Qed.

Lemma wp_mono {A : Type} (m : M A) (Q Q' : A -> world -> Prop)
  (E E' : fault -> world -> Prop) (w : world) :
  wp m Q E w ->
  (forall a w', Q a w' -> Q' a w') ->
  (forall f w', E f w' -> E' f w') ->
  wp m Q' E' w.
Proof.
  unfold wp. destruct (m w) as [a w1|f w1|]; intros H HQ HE; auto.
Qed.

Lemma wp_load {A : Type} (f : WT_CONNECTION_IMPL -> A)
  (Q : A -> world -> Prop) (E : fault -> world -> Prop) (w : world) :
  others w = [] -> Q (f (conn w)) w -> wp (load f) Q E w.
Proof.
  intros Ho H. unfold wp, load. rewrite (yield_alone w Ho). exact H.
Qed.

Lemma wp_add64 (r : clock_ref) (v : Z) (Q : Z -> world -> Prop)
  (E : fault -> world -> Prop) (w : world) :
  others w = [] ->
  Q (u64 (deref r (conn w) + v))
    (update (assign r (u64 (deref r (conn w) + v))) w) ->
  wp (__wt_atomic_add64 r v) Q E w.
Proof.
  intros Ho H. unfold wp, __wt_atomic_add64. rewrite (yield_alone w Ho).
  exact H.
Qed.

Lemma wp_sub64 (r : clock_ref) (v : Z) (Q : Z -> world -> Prop)
  (E : fault -> world -> Prop) (w : world) :
  others w = [] ->
  Q (u64 (deref r (conn w) - v))
    (update (assign r (u64 (deref r (conn w) - v))) w) ->
  wp (__wt_atomic_sub64 r v) Q E w.
Proof.
  intros Ho H. unfold wp, __wt_atomic_sub64. rewrite (yield_alone w Ho).
  exact H.
Qed.

Lemma wp_store64 (r : clock_ref) (v : Z) (Q : unit -> world -> Prop)
  (E : fault -> world -> Prop) (w : world) :
  others w = [] ->
  Q tt (update (assign r v) w) ->
  wp (__wt_atomic_store64 r v) Q E w.
Proof.
  intros Ho H. unfold wp, __wt_atomic_store64. rewrite (yield_alone w Ho).
  exact H.
Qed.

Lemma wp_casv64 (r : clock_ref) (old new : Z) (Q : bool -> world -> Prop)
  (E : fault -> world -> Prop) (w : world) :
  others w = [] ->
  (deref r (conn w) = old -> Q true (update (assign r new) w)) ->
  (deref r (conn w) <> old -> Q false w) ->
  wp (__wt_atomic_casv64 r old new) Q E w.
Proof.
  intros Ho Hyes Hno. unfold wp, __wt_atomic_casv64.
  rewrite (yield_alone w Ho).
  destruct (Z.eqb_spec (deref r (conn w)) old); auto.
Qed.

Lemma wp_addv64_written (v : Z) (Q : Z -> world -> Prop)
  (E : fault -> world -> Prop) (w : world) :
  others w = [] ->
  Q (u64 (capacity_written (conn w) + v))
    (update (set_capacity_written (u64 (capacity_written (conn w) + v))) w) ->
  wp (__wt_atomic_addv64_written v) Q E w.
Proof.
  intros Ho H. unfold wp, __wt_atomic_addv64_written.
  rewrite (yield_alone w Ho). exact H.
Qed.

Lemma wp_publish (b : bool) (Q : unit -> world -> Prop)
  (E : fault -> world -> Prop) (w : world) :
  others w = [] ->
  Q tt (update (set_capacity_signalled b) w) ->
  wp (publish_signalled b) Q E w.
Proof.
  intros Ho H. unfold wp, publish_signalled. rewrite (yield_alone w Ho).
  exact H.
Qed.

Lemma wp_stat_incrv (k : Stat.key) (v : Z) (Q : unit -> world -> Prop)
  (E : fault -> world -> Prop) (w : world) :
  Q tt (update (fun c => set_stats (Stat.incrv k v (stats c)) c) w) ->
  wp (WT_STAT_CONN_INCRV k v) Q E w.
Proof.
  intros H. exact H.
Qed.

Lemma wp_stat_incr (k : Stat.key) (Q : unit -> world -> Prop)
  (E : fault -> world -> Prop) (w : world) :
  Q tt (update (fun c => set_stats (Stat.incrv k 1 (stats c)) c) w) ->
  wp (WT_STAT_CONN_INCR k) Q E w.
Proof.
  intros H. exact H.
Qed.

Lemma wp_cond_signal (Q : unit -> world -> Prop)
  (E : fault -> world -> Prop) (w : world) :
  Q tt (emit EvCondSignal w) -> wp __wt_cond_signal Q E w.
Proof.
  intros H. exact H.
Qed.

Lemma wp_sleep (s us : Z) (Q : unit -> world -> Prop)
  (E : fault -> world -> Prop) (w : world) :
  Q tt (emit (EvSleep s us) w) -> wp (__wt_sleep s us) Q E w.
Proof.
  intros H. exact H.
Qed.

Lemma wp_assert (a : assertion) (b : bool) (Q : unit -> world -> Prop)
  (E : fault -> world -> Prop) (w : world) :
  (b = true -> Q tt w) ->
  (b = false -> Q tt (emit (EvAssertFailed a) w)) ->
  wp (WT_ASSERT a b) Q E w.
Proof.
  intros Hyes Hno. unfold wp, WT_ASSERT. destruct b; auto.
Qed.

Lemma wp_reservation_ns (bytes capacity : Z) (Q : Z -> world -> Prop)
  (E : fault -> world -> Prop) (w : world) :
  (capacity <> 0 -> Q (u64 (bytes * WT_BILLION) / capacity) w) ->
  (capacity = 0 -> E DivisionByZero w) ->
  wp (reservation_ns bytes capacity) Q E w.
Proof.
  intros Hyes Hno. unfold wp, reservation_ns, WT_RESERVATION_NS.
  destruct (Z.eqb_spec capacity 0); auto.
Qed.

(** ** What a call of a thread that runs alone preserves *)

Section Frame.
Variable I : world -> Prop.
Variable touch : clock_ref -> Prop.
Variable counted : Stat.key -> Prop.

Hypothesis I_alone : forall w, I w -> others w = [].
Hypothesis I_clock :
  forall r v w, touch r -> I w -> I (update (assign r v) w).
Hypothesis I_stat :
  forall k v w, counted k -> I w ->
    I (update (fun c => set_stats (Stat.incrv k v (stats c)) c) w).
Hypothesis I_sleep : forall s us w, I w -> I (emit (EvSleep s us) w).
Hypothesis I_assert : forall a w, I w -> I (emit (EvAssertFailed a) w).

Lemma frame_reserve (r : clock_ref) (bytes capacity now_ns : Z)
  (E : fault -> world -> Prop) (w : world) :
  (capacity <> 0 -> touch r) -> I w ->
  wp (__capacity_reserve r bytes capacity now_ns)
    (fun v w' => I w' /\ (capacity = 0 -> v = now_ns)) E w.
Proof.
  intros Htouch Hw. unfold __capacity_reserve.
  destruct (Z.eqb_spec capacity 0) as [Hc0|Hc]; cbn [negb].
  - apply wp_ret. split; [exact Hw | reflexivity].
  - specialize (Htouch Hc).
    apply wp_bind. apply wp_reservation_ns; [intros _ | contradiction].
    apply wp_bind. apply wp_add64; [exact (I_alone w Hw)|].
    apply wp_bind.
    match goal with
    | |- wp (if ?b then _ else _) _ _ _ => destruct b
    end.
    + apply wp_store64; [apply I_alone, I_clock; assumption|].
      apply wp_ret. split; [|intros; contradiction].
      apply I_clock; [exact Htouch|]. apply I_clock; assumption.
    + apply wp_ret. apply wp_ret. split; [|intros; contradiction].
      apply I_clock; assumption.
Qed.

Lemma frame_scan (type victim : WT_THROTTLE_TYPE) (s : scan_state)
  (E : fault -> world -> Prop) (w : world) :
  I w -> scan_ok s w ->
  wp (scan_victim type victim s) (fun s' w' => w' = w /\ scan_ok s' w) E w.
Proof.
  intros Hw Hs. unfold scan_victim.
  destruct (negb (type_eqb type victim)).
  - apply wp_bind. apply wp_load; [exact (I_alone w Hw)|].
    match goal with
    | |- wp (if ?b then _ else _) _ _ _ => destruct b
    end.
    + apply wp_bind. apply wp_load; [exact (I_alone w Hw)|].
      apply wp_ret. split; [reflexivity|].
      unfold scan_ok. cbn [steal steal_capacity]. exists victim. reflexivity.
    + apply wp_ret. split; [reflexivity | exact Hs].
  - apply wp_ret. split; [reflexivity | exact Hs].
Qed.

Lemma frame_steal_slice (reservation victim : clock_ref)
  (bytes capacity total_capacity now_ns victim_capacity best rtv : Z)
  (w : world) :
  I w -> (forall r, touch r) ->
  capacity <> 0 -> total_capacity <> 0 ->
  (exists v, victim_capacity = capacity_of v (conn w)) ->
  wp (steal_slice reservation victim bytes capacity total_capacity now_ns
        victim_capacity best rtv)
    (fun r w' => I w') (victim_crash I) w.
Proof.
  intros Hw Htouch Hc Ht [v Hv]. unfold steal_slice.
  apply wp_bind. apply wp_assert; intros Hassert.
  - apply wp_bind. apply wp_reservation_ns.
    + intros Hvc. apply wp_bind. apply wp_casv64; [exact (I_alone w Hw)| |].
      * intros _. cbn [negb].
        apply wp_bind. apply wp_reservation_ns; [intros _ | contradiction].
        apply wp_bind.
        apply wp_sub64; [apply I_alone, I_clock; auto|].
        apply wp_ret. apply I_clock; auto.
      * intros _. cbn [negb].
        apply wp_bind. apply wp_reservation_ns; [intros _ | contradiction].
        apply wp_bind. apply wp_sub64; [exact (I_alone w Hw)|].
        apply wp_bind. apply wp_reservation_ns; [intros _ | contradiction].
        apply wp_bind.
        apply wp_sub64; [apply I_alone, I_clock; auto|].
        apply wp_ret. apply I_clock; auto.
    + intros Hvc. rewrite Hvc in Hassert. discriminate Hassert.
  - apply wp_bind. apply wp_reservation_ns.
    + intros Hvc. exfalso. apply Hvc.
      apply negb_false_iff in Hassert. apply Z.eqb_eq in Hassert.
      exact Hassert.
    + intros Hvc. exists w, v. repeat split; auto. congruence.
Qed.

Lemma frame_pass (type : WT_THROTTLE_TYPE)
  (bytes capacity total_capacity now_ns : Z)
  (st : option clock_ref) (sc : Z) (w : world) :
  I w ->
  (capacity <> 0 -> touch (reservation_of type)) ->
  (total_capacity <> 0 -> forall r, touch r) ->
  wp (throttle_pass type bytes capacity total_capacity now_ns st sc)
    (fun r w' => I w')
    (fun f w' => total_capacity <> 0 /\ victim_crash I f w') w.
Proof.
  intros Hw Hown Htot. unfold throttle_pass.
  apply wp_bind.
  eapply wp_mono;
    [apply (frame_reserve (reservation_of type) bytes capacity now_ns
              (fun f w' => total_capacity <> 0 /\ victim_crash I f w')
              w Hown Hw)
    | | intros f w' H; exact H].
  intros rv w1 [Hw1 Hrv].
  apply wp_bind.
  assert (Htot' : total_capacity <> 0 -> touch Ref_reservation_total)
    by (intros Hne; apply Htot; exact Hne).
  eapply wp_mono;
    [apply (frame_reserve Ref_reservation_total bytes total_capacity now_ns
              (fun f w' => total_capacity <> 0 /\ victim_crash I f w')
              w1 Htot' Hw1)
    | | intros f w' H; exact H].
  intros rtv w2 [Hw2 _].
  destruct st as [victim0|]; [apply wp_ret; exact Hw2|].
  destruct (Z.eqb_spec total_capacity 0) as [Ht0|Ht].
  { rewrite andb_false_r. apply wp_ret. exact Hw2. }
  destruct (Z.gtb_spec rv now_ns) as [Hgt|Hle];
    [|apply wp_ret; exact Hw2].
  assert (Hc : capacity <> 0) by (intros Hc0; specialize (Hrv Hc0); lia).
  destruct (rtv <? now_ns); [|apply wp_ret; exact Hw2].
  cbn [andb negb].
  apply wp_bind.
  eapply wp_mono;
    [apply (frame_scan type WT_THROTTLE_CKPT _
              (fun f w' => total_capacity <> 0 /\ victim_crash I f w')
              w2 Hw2); exact Logic.I
    | | intros f w' H; exact H].
  intros s1 w3 [Hw3 Hs1]. subst w3.
  apply wp_bind.
  eapply wp_mono;
    [apply (frame_scan type WT_THROTTLE_EVICT s1
              (fun f w' => total_capacity <> 0 /\ victim_crash I f w')
              w2 Hw2 Hs1)
    | | intros f w' H; exact H].
  intros s2 w3 [Hw3 Hs2]. subst w3.
  apply wp_bind.
  eapply wp_mono;
    [apply (frame_scan type WT_THROTTLE_LOG s2
              (fun f w' => total_capacity <> 0 /\ victim_crash I f w')
              w2 Hw2 Hs2)
    | | intros f w' H; exact H].
  intros s3 w3 [Hw3 Hs3]. subst w3.
  apply wp_bind.
  eapply wp_mono;
    [apply (frame_scan type WT_THROTTLE_READ s3
              (fun f w' => total_capacity <> 0 /\ victim_crash I f w')
              w2 Hw2 Hs3)
    | | intros f w' H; exact H].
  intros s4 w3 [Hw3 Hs4]. subst w3.
  unfold scan_ok in Hs4.
  destruct (steal s4) as [victim|]; [|apply wp_ret; exact Hw2].
  eapply wp_mono;
    [apply (frame_steal_slice _ victim bytes capacity total_capacity now_ns
              _ _ rtv w2 Hw2 (Htot Ht) Hc Ht Hs4)
    | intros r w' H; exact H
    | intros f w' H; split; [exact Ht | exact H]].
Qed.

Lemma frame_again (fuel : nat) (type : WT_THROTTLE_TYPE)
  (bytes capacity total_capacity now_ns : Z) :
  (capacity <> 0 -> touch (reservation_of type)) ->
  (total_capacity <> 0 -> forall r, touch r) ->
  forall (st : option clock_ref) (sc : Z) (w : world),
  I w ->
  wp (throttle_again fuel type bytes capacity total_capacity now_ns st sc)
    (fun r w' => I w')
    (fun f w' => total_capacity <> 0 /\ victim_crash I f w') w.
Proof.
  intros Hown Htot.
  induction fuel as [|fuel IH]; intros st sc w Hw.
  - exact Logic.I.
  - cbn [throttle_again]. apply wp_bind.
    eapply wp_mono;
      [apply (frame_pass type bytes capacity total_capacity now_ns st sc w
                Hw Hown Htot)
      | | intros f w' H; exact H].
    intros [st' sc'|rv rtv] w1 Hw1.
    + apply IH. exact Hw1.
    + apply wp_ret. exact Hw1.
Qed.

Lemma frame_wait (type : WT_THROTTLE_TYPE) (now_ns rv rtv : Z)
  (E : fault -> world -> Prop) (w : world) :
  counted Stat.capacity_total_throttles ->
  counted Stat.capacity_total_time ->
  counted (throttles_stat type) ->
  counted (time_stat type) ->
  I w ->
  wp (throttle_wait type now_ns rv rtv) (fun _ w' => I w') E w.
Proof.
  intros H1 H2 H3 H4 Hw. unfold throttle_wait. cbv zeta.
  match goal with
  | |- wp (if ?b then _ else _) _ _ _ => destruct b
  end; [|apply wp_ret; exact Hw].
  apply wp_bind.
  match goal with
  | |- wp (if ?b then _ else _) _ _ _ => destruct b
  end.
  - apply wp_bind. apply wp_stat_incr. apply wp_stat_incrv.
    match goal with
    | |- wp (if ?b then _ else _) _ _ _ => destruct b
    end.
    + apply wp_sleep. apply I_sleep. apply I_stat; auto.
    + apply wp_ret. apply I_stat; auto.
  - apply wp_bind. apply wp_stat_incr. apply wp_stat_incrv.
    match goal with
    | |- wp (if ?b then _ else _) _ _ _ => destruct b
    end.
    + apply wp_sleep. apply I_sleep. apply I_stat; auto.
    + apply wp_ret. apply I_stat; auto.
Qed.

Lemma frame_signal (E : fault -> world -> Prop) (w : world) :
  counted Stat.capacity_signal_calls ->
  counted Stat.capacity_signals ->
  (forall b w, I w -> I (update (set_capacity_signalled b) w)) ->
  (forall w, I w -> I (emit EvCondSignal w)) ->
  I w ->
  wp __wt_capacity_signal (fun _ w' => I w') E w.
Proof.
  intros H1 H2 Hflag Hcond Hw. unfold __wt_capacity_signal.
  apply wp_bind. apply wp_stat_incr.
  assert (Hw1 : I (update (fun c => set_stats
                             (Stat.incrv Stat.capacity_signal_calls 1
                                (stats c)) c) w))
    by (apply I_stat; assumption).
  apply wp_bind. apply wp_load; [exact (I_alone _ Hw1)|].
  apply wp_bind. apply wp_load; [exact (I_alone _ Hw1)|].
  match goal with
  | |- wp (if ?b then _ else _) _ _ _ => destruct b
  end; [|apply wp_ret; exact Hw1].
  apply wp_bind. apply wp_load; [exact (I_alone _ Hw1)|].
  match goal with
  | |- wp (if ?b then _ else _) _ _ _ => destruct b
  end; [|apply wp_ret; exact Hw1].
  apply wp_bind. apply wp_cond_signal.
  apply wp_bind. apply wp_publish; [apply I_alone, Hcond; exact Hw1|].
  apply wp_stat_incr. apply I_stat; [exact H2|].
  apply Hflag. apply Hcond. exact Hw1.
Qed.

(** The call from its assertions on. *)
Lemma frame_tail (fuel : nat) (type : WT_THROTTLE_TYPE)
  (bytes capacity total_capacity now_ns : Z) (b1 b2 : bool) (w : world) :
  counted Stat.capacity_total_throttles ->
  counted Stat.capacity_total_time ->
  counted (throttles_stat type) ->
  counted (time_stat type) ->
  (capacity <> 0 -> touch (reservation_of type)) ->
  (total_capacity <> 0 -> forall r, touch r) ->
  I w ->
  wp (WT_ASSERT Assert_bytes_bound b1 ;;
      WT_ASSERT Assert_capacity_nonzero b2 ;;
      r <- throttle_again fuel type bytes capacity total_capacity now_ns
             None 0 ;;
      throttle_wait type now_ns (fst r) (snd r))
    (fun _ w' => I w')
    (fun f w' => total_capacity <> 0 /\ victim_crash I f w') w.
Proof.
  intros Hk1 Hk2 Hk3 Hk4 Hown Htot Hw.
  assert (Hloop : forall w2, I w2 ->
            wp (r <- throttle_again fuel type bytes capacity total_capacity
                       now_ns None 0 ;;
                throttle_wait type now_ns (fst r) (snd r))
              (fun _ w' => I w')
              (fun f w' => total_capacity <> 0 /\ victim_crash I f w') w2).
  { intros w2 Hw2. apply wp_bind.
    eapply wp_mono.
    - apply (frame_again fuel type bytes capacity total_capacity now_ns
               Hown Htot None 0 w2 Hw2).
    - intros r w3 Hw3. apply frame_wait; auto.
    - intros f w3 H. exact H. }
  apply wp_bind. apply wp_assert; intros _;
    (apply wp_bind; apply wp_assert; intros _; apply Hloop; auto).
Qed.

(** The whole call: [I] holds of the world it ends in, and it crashes only
    with a total capacity and a victim without capacity. *)
Lemma frame_throttle (fuel : nat) (now : timespec) (bytes : Z)
  (type : WT_THROTTLE_TYPE) (w : world) :
  counted (calls_stat type) ->
  counted Stat.capacity_total_throttles ->
  counted Stat.capacity_total_time ->
  counted (throttles_stat type) ->
  counted (time_stat type) ->
  (type = WT_THROTTLE_READ -> counted Stat.capacity_bytes_read) ->
  (type <> WT_THROTTLE_READ ->
     counted Stat.capacity_bytes_written
     /\ counted Stat.capacity_signal_calls
     /\ counted Stat.capacity_signals
     /\ (forall v w, I w -> I (update (set_capacity_written v) w))
     /\ (forall b w, I w -> I (update (set_capacity_signalled b) w))
     /\ (forall w, I w -> I (emit EvCondSignal w))) ->
  (forall w, I w -> capacity_of type (conn w) <> 0 ->
     touch (reservation_of type)) ->
  (forall w, I w -> capacity_total (conn w) <> 0 -> forall r, touch r) ->
  I w ->
  wp (__wt_capacity_throttle fuel now bytes type)
    (fun _ w' => I w')
    (fun f w' =>
       (exists w0, I w0 /\ capacity_total (conn w0) <> 0)
       /\ victim_crash I f w') w.
Proof.
  intros Hcalls Hk1 Hk2 Hk3 Hk4 Hread Hwrite Hown Htot Hw.
  unfold __wt_capacity_throttle.
  apply wp_bind. apply wp_load; [exact (I_alone w Hw)|].
  apply wp_bind. apply wp_stat_incr.
  assert (Hw1 : I (update (fun c => set_stats
                             (Stat.incrv (calls_stat type) 1 (stats c)) c) w))
    by (apply I_stat; assumption).
  set (w1 := update (fun c => set_stats
                       (Stat.incrv (calls_stat type) 1 (stats c)) c) w) in *.
  apply wp_bind. apply wp_load; [exact (I_alone _ Hw1)|].
  apply wp_bind.
  apply (wp_mono _ (fun leave w' => w' = w1) _
           (fun f w' =>
              (exists w0, I w0 /\ capacity_total (conn w0) <> 0)
              /\ victim_crash I f w')
           (fun f w' =>
              (exists w0, I w0 /\ capacity_total (conn w0) <> 0)
              /\ victim_crash I f w')).
  { match goal with
    | |- wp (if ?b then _ else _) _ _ _ => destruct b
    end.
    - apply wp_ret. reflexivity.
    - apply wp_load; [exact (I_alone _ Hw1) | reflexivity]. }
  2:{ intros f w' H; exact H. }
  intros leave w2 Hw2. subst w2.
  destruct leave; [apply wp_ret; exact Hw1|].
  apply wp_bind.
  apply (wp_mono _ (fun _ w' => I w') _
           (fun f w' =>
              (exists w0, I w0 /\ capacity_total (conn w0) <> 0)
              /\ victim_crash I f w')
           (fun f w' =>
              (exists w0, I w0 /\ capacity_total (conn w0) <> 0)
              /\ victim_crash I f w')).
  { destruct type; cbn [negb type_eqb].
    - destruct Hwrite as (Hb & Hs1 & Hs2 & Hwr & Hfl & Hcs); [discriminate|].
      apply wp_bind. apply wp_addv64_written; [exact (I_alone _ Hw1)|].
      apply wp_bind. apply wp_stat_incrv.
      apply frame_signal; auto.
    - destruct Hwrite as (Hb & Hs1 & Hs2 & Hwr & Hfl & Hcs); [discriminate|].
      apply wp_bind. apply wp_addv64_written; [exact (I_alone _ Hw1)|].
      apply wp_bind. apply wp_stat_incrv.
      apply frame_signal; auto.
    - destruct Hwrite as (Hb & Hs1 & Hs2 & Hwr & Hfl & Hcs); [discriminate|].
      apply wp_bind. apply wp_addv64_written; [exact (I_alone _ Hw1)|].
      apply wp_bind. apply wp_stat_incrv.
      apply frame_signal; auto.
    - apply wp_stat_incrv. apply I_stat; auto. }
  2:{ intros f w' H; exact H. }
  intros u w2 Hw2.
  apply wp_bind. apply wp_assert; intros _.
  - apply wp_bind. apply wp_assert; intros _.
    + cbv zeta. apply wp_bind.
      eapply wp_mono.
      * apply (frame_again fuel type bytes (capacity_of type (conn w))
                 (capacity_total (conn w1)) _
                 (Hown w Hw) (Htot w1 Hw1) None 0 w2 Hw2).
      * intros r w3 Hw3. apply frame_wait; auto.
      * intros f w3 [Hne Hcrash]. split; [|exact Hcrash].
        exists w1. split; [exact Hw1 | exact Hne].
    + cbv zeta. apply wp_bind.
      eapply wp_mono.
      * apply (frame_again fuel type bytes (capacity_of type (conn w))
                 (capacity_total (conn w1)) _
                 (Hown w Hw) (Htot w1 Hw1) None 0 _ (I_assert _ _ Hw2)).
      * intros r w3 Hw3. apply frame_wait; auto.
      * intros f w3 [Hne Hcrash]. split; [|exact Hcrash].
        exists w1. split; [exact Hw1 | exact Hne].
  - apply wp_bind. apply wp_assert; intros _.
    + cbv zeta. apply wp_bind.
      eapply wp_mono.
      * apply (frame_again fuel type bytes (capacity_of type (conn w))
                 (capacity_total (conn w1)) _
                 (Hown w Hw) (Htot w1 Hw1) None 0 _ (I_assert _ _ Hw2)).
      * intros r w3 Hw3. apply frame_wait; auto.
      * intros f w3 [Hne Hcrash]. split; [|exact Hcrash].
        exists w1. split; [exact Hw1 | exact Hne].
    + cbv zeta. apply wp_bind.
      eapply wp_mono.
      * apply (frame_again fuel type bytes (capacity_of type (conn w))
                 (capacity_total (conn w1)) _
                 (Hown w Hw) (Htot w1 Hw1) None 0 _
                 (I_assert _ _ (I_assert _ _ Hw2))).
      * intros r w3 Hw3. apply frame_wait; auto.
      * intros f w3 [Hne Hcrash]. split; [|exact Hcrash].
        exists w1. split; [exact Hw1 | exact Hne].
Qed.

End Frame.

Lemma wp_outcome {A : Type} (m : M A) (Q : A -> world -> Prop)
  (E : fault -> world -> Prop) (w : world) :
  wp m Q E w -> m w <> OutOfFuel ->
  (exists a w', m w = Done a w' /\ Q a w')
  \/ (exists f w', m w = Crash f w' /\ E f w').
Proof.
  unfold wp. destruct (m w) as [a w'|f w'|]; intros H Hfin.
  - left. exists a, w'. split; [reflexivity | exact H].
  - right. exists f, w'. split; [reflexivity | exact H].
  - contradiction.
Qed.

(** A call that may make two passes returns or crashes, whatever the
    other threads do. *)
Lemma throttle_fuel_two (fuel : nat) (now : timespec) (bytes : Z)
  (type : WT_THROTTLE_TYPE) (w : world) :
  (2 <= fuel)%nat ->
  __wt_capacity_throttle fuel now bytes type w <> OutOfFuel.
Proof.
  intros Hfuel.
  assert (Heq : __wt_capacity_throttle fuel now bytes type w
                = __wt_capacity_throttle 2 now bytes type w).
  { unfold __wt_capacity_throttle.
    apply bind_cong_r; intros capacity w1.
    apply bind_cong_r; intros u1 w2.
    apply bind_cong_r; intros total_capacity w3.
    apply bind_cong_r; intros leave w4.
    destruct leave; [reflexivity|].
    apply bind_cong_r; intros u2 w5.
    apply bind_cong_r; intros u3 w6.
    apply bind_cong_r; intros u4 w7.
    cbv zeta. apply bind_cong_l.
    apply throttle_again_two. exact Hfuel. }
  rewrite Heq. revert w Heq. intros w _.
  revert w. change (finishes (__wt_capacity_throttle 2 now bytes type)).
  unfold __wt_capacity_throttle.
  pose proof (finishes_again_two type bytes) as Hloop.
  pose proof finishes_wait as Hwait.
  set (loop := throttle_again 2 type bytes) in *. clearbody loop.
  finish.
Qed.

Lemma same_settings_refl (c : WT_CONNECTION_IMPL) : same_settings c c.
Proof.
  unfold same_settings. repeat split; reflexivity.
Qed.

Lemma same_settings_trans (a b c : WT_CONNECTION_IMPL) :
  same_settings a b -> same_settings b c -> same_settings a c.
Proof.
  unfold same_settings.
  intros (H1 & H2 & H3 & H4 & H5 & H6 & H7) (G1 & G2 & G3 & G4 & G5 & G6 & G7).
  repeat split; congruence.
Qed.

Lemma settings_assign (r : clock_ref) (v : Z) (c : WT_CONNECTION_IMPL) :
  same_settings c (assign r v c).
Proof.
  unfold same_settings. destruct r; repeat split; reflexivity.
Qed.

Lemma settings_stats (t : Stat.table) (c : WT_CONNECTION_IMPL) :
  same_settings c (set_stats t c).
Proof.
  unfold same_settings. repeat split; reflexivity.
Qed.

Lemma settings_written (v : Z) (c : WT_CONNECTION_IMPL) :
  same_settings c (set_capacity_written v c).
Proof.
  unfold same_settings. repeat split; reflexivity.
Qed.

Lemma settings_signalled (b : bool) (c : WT_CONNECTION_IMPL) :
  same_settings c (set_capacity_signalled b c).
Proof.
  unfold same_settings. repeat split; reflexivity.
Qed.

(** X8: The throttle only reads the configuration: a call of a thread that
    runs alone, whether it returns or crashes, leaves the five capacities,
    the threshold and the recovery flag as they were. *)
Theorem throttle_keeps_settings
  (fuel : nat) (now : timespec) (bytes : Z) (type : WT_THROTTLE_TYPE)
  (w : world) :
  others w = [] ->
  (2 <= fuel)%nat ->
  exists w',
    (__wt_capacity_throttle fuel now bytes type w = Done tt w'
     \/ __wt_capacity_throttle fuel now bytes type w = Crash DivisionByZero w')
    /\ others w' = []
    /\ same_settings (conn w) (conn w').
Proof.
  intros Ho Hfuel.
  pose (I := fun w' => others w' = [] /\ same_settings (conn w) (conn w')).
  assert (Hwp : wp (__wt_capacity_throttle fuel now bytes type)
                  (fun _ w' => I w')
                  (fun f w' =>
                     (exists w0, I w0 /\ capacity_total (conn w0) <> 0)
                     /\ victim_crash I f w') w).
  { apply (frame_throttle I (fun _ => True) (fun _ => True)); unfold I;
      try exact Logic.I; try (intros; exact Logic.I).
    - intros w1 [H _]. exact H.
    - intros r v w1 _ [H1 H2]. split; [exact H1|].
      eapply same_settings_trans; [exact H2 | apply settings_assign].
    - intros k v w1 _ [H1 H2]. split; [exact H1|].
      eapply same_settings_trans; [exact H2 | apply settings_stats].
    - intros s us w1 H. exact H.
    - intros a w1 H. exact H.
    - intros _. split; [exact Logic.I|]. split; [exact Logic.I|].
      split; [exact Logic.I|]. split; [|split].
      + intros v w1 [H1 H2]. split; [exact H1|].
        eapply same_settings_trans; [exact H2 | apply settings_written].
      + intros b w1 [H1 H2]. split; [exact H1|].
        eapply same_settings_trans; [exact H2 | apply settings_signalled].
      + intros w1 H. exact H.
    - split; [exact Ho | apply same_settings_refl]. }
  apply wp_outcome in Hwp; [|apply throttle_fuel_two; exact Hfuel].
  destruct Hwp as [([] & w' & Hrun & Hw')|(f & w' & Hrun & _ & Hcrash)].
  - exists w'. split; [left; exact Hrun | exact Hw'].
  - destruct Hcrash as (w1 & victim & Hw1 & _ & Hf & Hw'). subst f w'.
    eexists. split; [right; exact Hrun | exact Hw1].
Qed.

Lemma throttle_keeps_settings_witness :
  exists w',
    (__wt_capacity_throttle 2 at_100s 4096 WT_THROTTLE_LOG
       (alone busy_log_connection) = Done tt w'
     \/ __wt_capacity_throttle 2 at_100s 4096 WT_THROTTLE_LOG
          (alone busy_log_connection) = Crash DivisionByZero w')
    /\ capacity_total (conn w') = 10000000.
Proof.
  destruct (throttle_keeps_settings 2 at_100s 4096 WT_THROTTLE_LOG
              (alone busy_log_connection) eq_refl)
    as (w' & Hrun & _ & Hset).
  - lia.
  - exists w'. split; [exact Hrun|]. destruct Hset as [Htot _].
    rewrite Htot. reflexivity.
Defined.

(** X9: A read call of a thread that runs alone never counts as written bytes
    and never signals: [capacity_written] and [capacity_signalled] are left
    as they were and the condition is not woken. *)
Theorem throttle_read_never_signals
  (fuel : nat) (now : timespec) (bytes : Z) (w : world) :
  others w = [] ->
  (2 <= fuel)%nat ->
  exists w',
    (__wt_capacity_throttle fuel now bytes WT_THROTTLE_READ w = Done tt w'
     \/ __wt_capacity_throttle fuel now bytes WT_THROTTLE_READ w
        = Crash DivisionByZero w')
    /\ capacity_written (conn w') = capacity_written (conn w)
    /\ capacity_signalled (conn w') = capacity_signalled (conn w)
    /\ stats (conn w') Stat.capacity_bytes_written
       = stats (conn w) Stat.capacity_bytes_written
    /\ wakes (trace w') = wakes (trace w).
Proof.
  intros Ho Hfuel.
  pose (I := fun w' =>
               others w' = []
               /\ capacity_written (conn w') = capacity_written (conn w)
               /\ capacity_signalled (conn w') = capacity_signalled (conn w)
               /\ stats (conn w') Stat.capacity_bytes_written
                  = stats (conn w) Stat.capacity_bytes_written
               /\ wakes (trace w') = wakes (trace w)).
  assert (Hwp : wp (__wt_capacity_throttle fuel now bytes WT_THROTTLE_READ)
                  (fun _ w' => I w')
                  (fun f w' =>
                     (exists w0, I w0 /\ capacity_total (conn w0) <> 0)
                     /\ victim_crash I f w') w).
  { apply (frame_throttle I (fun _ => True)
             (fun k => Stat.eqb k Stat.capacity_bytes_written = false));
      unfold I; try reflexivity; try (intros; exact Logic.I).
    - intros w1 [H _]. exact H.
    - intros r v w1 _ (H1 & H2 & H3 & H4 & H5).
      repeat split; try assumption; destruct r; assumption.
    - intros k v w1 Hk (H1 & H2 & H3 & H4 & H5).
      repeat split; try assumption.
      cbn [conn update stats set_stats]. unfold Stat.incrv, Stat.set.
      rewrite Hk. exact H4.
    - intros s us w1 H. exact H.
    - intros a w1 H. exact H.
    - intros Hne. exfalso. apply Hne. reflexivity.
    - repeat split; try reflexivity. exact Ho. }
  apply wp_outcome in Hwp; [|apply throttle_fuel_two; exact Hfuel].
  destruct Hwp as [([] & w' & Hrun & Hw')|(f & w' & Hrun & _ & Hcrash)].
  - exists w'. split; [left; exact Hrun | apply Hw'].
  - destruct Hcrash as (w1 & victim & Hw1 & _ & Hf & Hw'). subst f w'.
    eexists. split; [right; exact Hrun | apply Hw1].
Qed.

Lemma throttle_read_never_signals_witness :
  exists w',
    (__wt_capacity_throttle 2 at_100s 4096 WT_THROTTLE_READ
       (alone busy_log_connection) = Done tt w'
     \/ __wt_capacity_throttle 2 at_100s 4096 WT_THROTTLE_READ
          (alone busy_log_connection) = Crash DivisionByZero w')
    /\ capacity_written (conn w') = 0
    /\ wakes (trace w') = O.
Proof.
  destruct (throttle_read_never_signals 2 at_100s 4096
              (alone busy_log_connection) eq_refl)
    as (w' & Hrun & Hwr & _ & _ & Hwakes).
  - lia.
  - exists w'. split; [exact Hrun|]. split; [exact Hwr | exact Hwakes].
Defined.

Lemma deref_set_stats (r : clock_ref) (t : Stat.table)
  (c : WT_CONNECTION_IMPL) :
  deref r (set_stats t c) = deref r c.
Proof.
  destruct r; reflexivity.
Qed.

Lemma deref_set_written (r : clock_ref) (v : Z) (c : WT_CONNECTION_IMPL) :
  deref r (set_capacity_written v c) = deref r c.
Proof.
  destruct r; reflexivity.
Qed.

Lemma deref_set_signalled (r : clock_ref) (b : bool)
  (c : WT_CONNECTION_IMPL) :
  deref r (set_capacity_signalled b c) = deref r c.
Proof.
  destruct r; reflexivity.
Qed.



Lemma capacity_of_assign (t : WT_THROTTLE_TYPE) (r : clock_ref) (v : Z)
  (c : WT_CONNECTION_IMPL) :
  capacity_of t (assign r v c) = capacity_of t c.
Proof.
  destruct t, r; reflexivity.
Qed.

Lemma capacity_of_set_stats (t : WT_THROTTLE_TYPE) (s : Stat.table)
  (c : WT_CONNECTION_IMPL) :
  capacity_of t (set_stats s c) = capacity_of t c.
Proof.
  destruct t; reflexivity.
Qed.

Lemma capacity_of_set_written (t : WT_THROTTLE_TYPE) (v : Z)
  (c : WT_CONNECTION_IMPL) :
  capacity_of t (set_capacity_written v c) = capacity_of t c.
Proof.
  destruct t; reflexivity.
Qed.

Lemma capacity_of_set_signalled (t : WT_THROTTLE_TYPE) (b : bool)
  (c : WT_CONNECTION_IMPL) :
  capacity_of t (set_capacity_signalled b c) = capacity_of t c.
Proof.
  destruct t; reflexivity.
Qed.

(** X12: When every class has a capacity, a call of a thread that runs alone
    returns: it never divides by zero, with or without a steal. *)
Theorem throttle_completes
  (fuel : nat) (now : timespec) (bytes : Z) (type : WT_THROTTLE_TYPE)
  (w : world) :
  others w = [] ->
  (forall v, capacity_of v (conn w) <> 0) ->
  (2 <= fuel)%nat ->
  exists w', __wt_capacity_throttle fuel now bytes type w = Done tt w'.
Proof.
  intros Ho Hcaps Hfuel.
  pose (I := fun w' =>
               others w' = [] /\ forall v, capacity_of v (conn w') <> 0).
  assert (Hwp : wp (__wt_capacity_throttle fuel now bytes type)
                  (fun _ w' => I w')
                  (fun f w' =>
                     (exists w0, I w0 /\ capacity_total (conn w0) <> 0)
                     /\ victim_crash I f w') w).
  { apply (frame_throttle I (fun _ => True) (fun _ => True));
      unfold I; try exact Logic.I; try (intros; exact Logic.I).
    - intros w1 [H _]. exact H.
    - intros r v w1 _ [H1 H2]. split; [exact H1|].
      intros t. cbn [conn update]. rewrite capacity_of_assign. apply H2.
    - intros k v w1 _ [H1 H2]. split; [exact H1|].
      intros t. cbn [conn update]. rewrite capacity_of_set_stats. apply H2.
    - intros s us w1 H. exact H.
    - intros a w1 H. exact H.
    - intros _. split; [exact Logic.I|]. split; [exact Logic.I|].
      split; [exact Logic.I|]. split; [|split].
      + intros v w1 [H1 H2]. split; [exact H1|].
        intros t. cbn [conn update]. rewrite capacity_of_set_written.
        apply H2.
      + intros b w1 [H1 H2]. split; [exact H1|].
        intros t. cbn [conn update]. rewrite capacity_of_set_signalled.
        apply H2.
      + intros w1 H. exact H.
    - split; [exact Ho | exact Hcaps]. }
  apply wp_outcome in Hwp; [|apply throttle_fuel_two; exact Hfuel].
  destruct Hwp as [([] & w' & Hrun & Hw')|(f & w' & Hrun & _ & Hcrash)].
  - exists w'. exact Hrun.
  - destruct Hcrash as (w1 & victim & [_ Hw1] & Hzero & _).
    exfalso. exact (Hw1 victim Hzero).
Qed.

Lemma throttle_completes_witness :
  exists w',
    __wt_capacity_throttle 2 at_100s 4096 WT_THROTTLE_LOG
      (alone busy_log_connection) = Done tt w'.
Proof.
  apply (throttle_completes 2 at_100s 4096 WT_THROTTLE_LOG
           (alone busy_log_connection)).
  - reflexivity.
  - intros v. destruct v; vm_compute; discriminate.
  - lia.
Defined.

(** ** The call, phase by phase *)

(** X7: During recovery the throttle is off: a call of a thread that runs
    alone only counts the call, whatever the capacities. *)
Theorem throttle_recovering
  (fuel : nat) (now : timespec) (bytes : Z) (type : WT_THROTTLE_TYPE)
  (w : world) :
  others w = [] ->
  WT_CONN_RECOVERING (conn w) = true ->
  __wt_capacity_throttle fuel now bytes type w
  = Done tt
      (update (fun c => set_stats (Stat.incrv (calls_stat type) 1 (stats c)) c)
         w).
Proof.
  intros Ho Hrec. destruct w as [c o t]. cbn [others conn] in Ho, Hrec.
  subst o.
  unfold __wt_capacity_throttle, bind, load, WT_STAT_CONN_INCR,
    WT_STAT_CONN_INCRV, yield, update, ret.
  cbn [conn others trace].
  destruct ((capacity_of type c =? 0)
            && (capacity_total
                  (set_stats (Stat.incrv (calls_stat type) 1 (stats c)) c)
                =? 0)).
  - reflexivity.
  - cbn [conn others trace WT_CONN_RECOVERING set_stats]. rewrite Hrec.
    reflexivity.
Qed.

Lemma throttle_recovering_witness :
  exists w',
    __wt_capacity_throttle 2 at_100s 4096 WT_THROTTLE_LOG
      (alone (snd (__capacity_config 1048576
                     {| capacity_total := 0; capacity_ckpt := 0;
                        capacity_evict := 0; capacity_log := 0;
                        capacity_read := 0; capacity_threshold := 0;
                        capacity_written := 0; capacity_signalled := false;
                        reservation_ckpt := 0; reservation_evict := 0;
                        reservation_log := 0; reservation_read := 0;
                        reservation_total := 0; WT_CONN_RECOVERING := true;
                        stats := Stat.zero |} (0, 10000000))))
    = Done tt w'
    /\ trace w' = []
    /\ reservation_log (conn w') = 0
    /\ capacity_written (conn w') = 0.
Proof.
  eexists. split.
  - apply throttle_recovering; reflexivity.
  - repeat split; reflexivity.
Defined.

(** The start of a call that is not turned away: the call is counted and
    the rest runs with the capacities read at the start. *)
Lemma throttle_prelude_alone
  (fuel : nat) (now : timespec) (bytes : Z) (type : WT_THROTTLE_TYPE)
  (w : world) :
  others w = [] ->
  WT_CONN_RECOVERING (conn w) = false ->
  capacity_of type (conn w) <> 0 \/ capacity_total (conn w) <> 0 ->
  __wt_capacity_throttle fuel now bytes type w
  = ((if negb (type_eqb type WT_THROTTLE_READ) then
        __wt_atomic_addv64_written bytes ;;
        WT_STAT_CONN_INCRV Stat.capacity_bytes_written bytes ;;
        __wt_capacity_signal
      else WT_STAT_CONN_INCRV Stat.capacity_bytes_read bytes) ;;
     WT_ASSERT Assert_bytes_bound (bytes <? 16 * WT_GIGABYTE) ;;
     WT_ASSERT Assert_capacity_nonzero
       (negb (capacity_of type (conn w) =? 0)) ;;
     r <- throttle_again fuel type bytes (capacity_of type (conn w))
            (capacity_total (conn w))
            (u64 (u64 (tv_sec now) * WT_BILLION + u64 (tv_nsec now)))
            None 0 ;;
     throttle_wait type
       (u64 (u64 (tv_sec now) * WT_BILLION + u64 (tv_nsec now)))
       (fst r) (snd r))
      (update (fun c => set_stats (Stat.incrv (calls_stat type) 1 (stats c)) c)
         w).
Proof.
  intros Ho Hrec Hcap. destruct w as [c o t]. cbn [others conn] in *.
  subst o.
  unfold __wt_capacity_throttle.
  unfold bind at 1. unfold load at 1. unfold yield. cbn [others conn].
  unfold bind at 1. unfold WT_STAT_CONN_INCR at 1, WT_STAT_CONN_INCRV at 1.
  unfold bind at 1. unfold load at 1. unfold yield, update.
  cbn [others conn trace].
  change (capacity_total
            (set_stats (Stat.incrv (calls_stat type) 1 (stats c)) c))
    with (capacity_total c).
  replace ((capacity_of type c =? 0) && (capacity_total c =? 0)) with false.
  - unfold bind at 1. unfold load at 1. unfold yield. cbn [others conn].
    change (WT_CONN_RECOVERING
              (set_stats (Stat.incrv (calls_stat type) 1 (stats c)) c))
      with (WT_CONN_RECOVERING c).
    rewrite Hrec. reflexivity.
  - symmetry. apply andb_false_iff.
    destruct Hcap as [H|H]; [left | right]; apply Z.eqb_neq; exact H.
Qed.

(** X10: A call that is not a read and is not turned away counts its bytes
    once: a thread that runs alone leaves [capacity_written] increased by
    [bytes] as a 64-bit sum and the counter [capacity_bytes_written]
    increased by [bytes], whether the call returns or crashes. *)
Theorem throttle_counts_bytes
  (fuel : nat) (now : timespec) (bytes : Z) (type : WT_THROTTLE_TYPE)
  (w : world) :
  others w = [] ->
  type <> WT_THROTTLE_READ ->
  WT_CONN_RECOVERING (conn w) = false ->
  capacity_of type (conn w) <> 0 \/ capacity_total (conn w) <> 0 ->
  (2 <= fuel)%nat ->
  exists w',
    (__wt_capacity_throttle fuel now bytes type w = Done tt w'
     \/ __wt_capacity_throttle fuel now bytes type w = Crash DivisionByZero w')
    /\ capacity_written (conn w') = u64 (capacity_written (conn w) + bytes)
    /\ stats (conn w') Stat.capacity_bytes_written
       = stats (conn w) Stat.capacity_bytes_written + bytes.
Proof.
  intros Ho Htype Hrec Hcap Hfuel.
  pose proof (throttle_fuel_two fuel now bytes type w Hfuel) as Hfin.
  rewrite (throttle_prelude_alone fuel now bytes type w Ho Hrec Hcap) in *.
  pose (I := fun w' =>
               others w' = []
               /\ capacity_written (conn w')
                  = u64 (capacity_written (conn w) + bytes)
               /\ stats (conn w') Stat.capacity_bytes_written
                  = stats (conn w) Stat.capacity_bytes_written + bytes).
  pose (counted := fun k => Stat.eqb k Stat.capacity_bytes_written = false).
  assert (I_alone : forall w1, I w1 -> others w1 = [])
    by (intros w1 [H _]; exact H).
  assert (I_clock : forall r v w1, True -> I w1 -> I (update (assign r v) w1)).
  { intros r v w1 _ (H1 & H2 & H3). repeat split; try assumption;
      destruct r; assumption. }
  assert (I_stat : forall k v w1, counted k -> I w1 ->
            I (update (fun c => set_stats (Stat.incrv k v (stats c)) c) w1)).
  { intros k v w1 Hk (H1 & H2 & H3). repeat split; try assumption.
    cbn [conn update stats set_stats]. unfold Stat.incrv, Stat.set.
    unfold counted in Hk. rewrite Hk. exact H3. }
  assert (I_sleep : forall s us w1, I w1 -> I (emit (EvSleep s us) w1))
    by (intros s us w1 H; exact H).
  assert (I_assert : forall a w1, I w1 -> I (emit (EvAssertFailed a) w1))
    by (intros a w1 H; exact H).
  match goal with
  | Hfin : ?m ?w1 <> OutOfFuel |- _ =>
      assert (Hwp : wp m (fun _ w' => I w')
                      (fun f w' => f = DivisionByZero /\ I w') w1)
  end.
  { replace (negb (type_eqb type WT_THROTTLE_READ)) with true
      by (destruct type; try reflexivity; contradiction).
    apply wp_bind. apply wp_bind.
    apply wp_addv64_written; [exact Ho|].
    apply wp_bind. apply wp_stat_incrv.
    eapply wp_mono.
    - apply (frame_signal I counted I_alone I_stat (fun _ _ => False));
        try reflexivity.
      + intros b w1 H. exact H.
      + intros w1 H. exact H.
      + unfold I. split; [exact Ho|]. split; [reflexivity|].
        cbn [conn update stats set_stats capacity_written
             set_capacity_written].
        destruct type; try reflexivity; contradiction.
    - intros u w2 Hw2. eapply wp_mono.
      + apply (frame_tail I (fun _ => True) counted I_alone I_clock I_stat
                 I_sleep I_assert); try reflexivity;
          try (destruct type; reflexivity); try (intros; exact Logic.I).
        exact Hw2.
      + intros u' w3 H. exact H.
      + intros f w3 [_ (w4 & victim & Hw4 & _ & Hf & Hw3)]. subst w3.
        split; [exact Hf | exact Hw4].
    - intros f w2 H. contradiction. }
  apply wp_outcome in Hwp; [|exact Hfin].
  destruct Hwp as [([] & w' & Hrun & Hw')|(f & w' & Hrun & Hf & Hw')].
  - exists w'. split; [left; exact Hrun | apply Hw'].
  - subst f. exists w'. split; [right; exact Hrun | apply Hw'].
Qed.

Lemma throttle_counts_bytes_witness :
  exists w',
    (__wt_capacity_throttle 2 at_100s 4096 WT_THROTTLE_LOG
       (alone busy_log_connection) = Done tt w'
     \/ __wt_capacity_throttle 2 at_100s 4096 WT_THROTTLE_LOG
          (alone busy_log_connection) = Crash DivisionByZero w')
    /\ capacity_written (conn w') = 4096.
Proof.
  destruct (throttle_counts_bytes 2 at_100s 4096 WT_THROTTLE_LOG
              (alone busy_log_connection))
    as (w' & Hrun & Hwr & _).
  - reflexivity.
  - discriminate.
  - reflexivity.
  - left. vm_compute. discriminate.
  - lia.
  - exists w'. split; [exact Hrun|]. rewrite Hwr. reflexivity.
Defined.

(** Without a total capacity a pass is the reservation of the class and
    nothing else. *)
Lemma pass_without_total
  (type : WT_THROTTLE_TYPE) (bytes capacity now_ns : Z)
  (st : option clock_ref) (sc : Z) (w : world) :
  throttle_pass type bytes capacity 0 now_ns st sc w
  = (res_value <-
       __capacity_reserve (reservation_of type) bytes capacity now_ns ;;
     ret (FallThrough res_value now_ns)) w.
Proof.
  unfold throttle_pass. apply bind_cong_r. intros rv w1.
  unfold __capacity_reserve.
  change (negb (0 =? 0)) with false. cbv iota.
  unfold bind at 1. unfold ret at 1.
  destruct st; [reflexivity|].
  rewrite andb_false_r. reflexivity.
Qed.

Lemma finishes_accounting (type : WT_THROTTLE_TYPE) (bytes : Z) :
  finishes
    (if negb (type_eqb type WT_THROTTLE_READ) then
       __wt_atomic_addv64_written bytes ;;
       WT_STAT_CONN_INCRV Stat.capacity_bytes_written bytes ;;
       __wt_capacity_signal
     else WT_STAT_CONN_INCRV Stat.capacity_bytes_read bytes).
Proof.
  finish.
Qed.

Lemma sleeps_cons_signal (t : list event) :
  sleeps (EvCondSignal :: t) = sleeps t.
Proof.
  reflexivity.
Qed.

(** X13: Single-class pacing: with a capacity for the class and no total
    capacity, a call of a thread that runs alone advances the clock of the
    class by the slot of its bytes (resetting a clock more than a second
    behind), and sleeps until its reservation when that is more than 100
    microseconds ahead of the current time. *)
Theorem throttle_single_class_pacing
  (fuel : nat) (now : timespec) (bytes : Z) (type : WT_THROTTLE_TYPE)
  (w : world) :
  others w = [] ->
  WT_CONN_RECOVERING (conn w) = false ->
  capacity_total (conn w) = 0 ->
  capacity_of type (conn w) <> 0 ->
  0 <= bytes < 16 * WT_GIGABYTE ->
  (1 <= fuel)%nat ->
  let now_ns := u64 (u64 (tv_sec now) * WT_BILLION + u64 (tv_nsec now)) in
  let slot_ns := bytes * WT_BILLION / capacity_of type (conn w) in
  let v := u64 (deref (reservation_of type) (conn w) + slot_ns) in
  exists w',
    __wt_capacity_throttle fuel now bytes type w = Done tt w'
    /\ deref (reservation_of type) (conn w')
       = (if v <? now_ns - WT_BILLION
          then u64 (now_ns - WT_BILLION + slot_ns) else v)
    /\ sleeps (trace w')
       = (if (v >? now_ns) && ((v - now_ns) / 1000 >? 100)
          then (0, (v - now_ns) / 1000) :: sleeps (trace w)
          else sleeps (trace w)).
Proof.
  intros Ho Hrec Htot Hcap Hb Hfuel now_ns slot_ns v.
  rewrite (throttle_prelude_alone fuel now bytes type w Ho Hrec
             (or_introl Hcap)).
  fold now_ns. rewrite Htot.
  pose (I := fun w' =>
               others w' = []
               /\ deref (reservation_of type) (conn w')
                  = deref (reservation_of type) (conn w)
               /\ sleeps (trace w') = sleeps (trace w)).
  set (w1 := update (fun c => set_stats
                       (Stat.incrv (calls_stat type) 1 (stats c)) c) w).
  assert (Hw1 : I w1).
  { unfold I, w1. split; [exact Ho|]. split; [|reflexivity].
    cbn [conn update]. apply deref_set_stats. }
  assert (I_alone : forall w2, I w2 -> others w2 = [])
    by (intros w2 [H _]; exact H).
  assert (I_stat : forall k u w2, True -> I w2 ->
            I (update (fun c => set_stats (Stat.incrv k u (stats c)) c) w2)).
  { intros k u w2 _ (H1 & H2 & H3). split; [exact H1|]. split; [|exact H3].
    cbn [conn update]. rewrite deref_set_stats. exact H2. }
  assert (Hacct : exists w2,
            (if negb (type_eqb type WT_THROTTLE_READ) then
               __wt_atomic_addv64_written bytes ;;
               WT_STAT_CONN_INCRV Stat.capacity_bytes_written bytes ;;
               __wt_capacity_signal
             else WT_STAT_CONN_INCRV Stat.capacity_bytes_read bytes) w1
            = Done tt w2 /\ I w2).
  { assert (Hwp : wp (if negb (type_eqb type WT_THROTTLE_READ) then
                        __wt_atomic_addv64_written bytes ;;
                        WT_STAT_CONN_INCRV Stat.capacity_bytes_written bytes ;;
                        __wt_capacity_signal
                      else WT_STAT_CONN_INCRV Stat.capacity_bytes_read bytes)
                    (fun _ w' => I w') (fun _ _ => False) w1).
    { destruct (negb (type_eqb type WT_THROTTLE_READ)).
      - apply wp_bind. apply wp_addv64_written; [exact (I_alone _ Hw1)|].
        apply wp_bind. apply wp_stat_incrv.
        apply (frame_signal I (fun _ => True) I_alone I_stat
                 (fun _ _ => False)); try exact Logic.I.
        + intros b w2 (H1 & H2 & H3). split; [exact H1|].
          split; [|exact H3].
          cbn [conn update]. rewrite deref_set_signalled. exact H2.
        + intros w2 H. exact H.
        + apply I_stat; [exact Logic.I|].
          destruct Hw1 as (H1 & H2 & H3). split; [exact H1|].
          split; [|exact H3].
          cbn [conn update]. rewrite deref_set_written. exact H2.
      - apply wp_stat_incrv. apply I_stat; [exact Logic.I | exact Hw1]. }
    apply wp_outcome in Hwp; [|apply finishes_accounting].
    destruct Hwp as [([] & w2 & Hrun & Hw2)|(f & w2 & _ & Hfalse)].
    - exists w2. split; assumption.
    - contradiction. }
  destruct Hacct as (w2 & Hacct & Ho2 & Hclk2 & Hsl2).
  unfold bind at 1. rewrite Hacct.
  replace (bytes <? 16 * WT_GIGABYTE) with true
    by (symmetry; apply Z.ltb_lt; lia).
  replace (capacity_of type (conn w) =? 0) with false
    by (symmetry; apply Z.eqb_neq; exact Hcap).
  unfold bind at 1. unfold WT_ASSERT at 1.
  unfold bind at 1. unfold WT_ASSERT at 1. cbn [negb].
  destruct fuel as [|fuel]; [lia|].
  unfold bind at 1.
  rewrite throttle_again_S, pass_without_total.
  unfold bind at 1.
  assert (Hn : 0 <= now_ns < UINT64_MODULUS) by apply u64_range.
  rewrite (reserve_run _ bytes _ now_ns w2 Hb Hn Hcap).
  rewrite (yield_alone w2 Ho2). rewrite Hclk2.
  fold slot_ns. fold v.
  assert (Hv : 0 <= v < UINT64_MODULUS) by apply u64_range.
  unfold ret at 1. cbn [fst snd].
  set (w3 := if v <? now_ns - WT_BILLION
             then update (assign (reservation_of type)
                            (u64 (now_ns - WT_BILLION + slot_ns)))
                    (yield (update (assign (reservation_of type) v) w2))
             else update (assign (reservation_of type) v) w2).
  assert (Hclk3 : deref (reservation_of type) (conn w3)
                  = (if v <? now_ns - WT_BILLION
                     then u64 (now_ns - WT_BILLION + slot_ns) else v)).
  { unfold w3. destruct (v <? now_ns - WT_BILLION);
      cbn [conn update]; apply deref_assign. }
  assert (Hsl3 : sleeps (trace w3) = sleeps (trace w)).
  { unfold w3. destruct (v <? now_ns - WT_BILLION).
    - rewrite yield_alone by exact Ho2. exact Hsl2.
    - exact Hsl2. }
  clearbody w3.
  unfold throttle_wait.
  rewrite wait_target_is_max.
  destruct (Z.gtb_spec v now_ns) as [Hgt|Hle].
  - replace (Z.max v now_ns) with v by lia.
    replace (v >? now_ns) with true by (symmetry; apply Z.gtb_lt; lia).
    replace (v =? now_ns) with false by (symmetry; apply Z.eqb_neq; lia).
    rewrite (u64_small (v - now_ns)) by lia.
    change WT_THOUSAND with 1000.
    change WT_CAPACITY_SLEEP_CUTOFF_US with 100.
    cbn [andb].
    destruct ((v - now_ns) / 1000 >? 100).
    + eexists. split; [reflexivity|]. split.
      * cbn [conn update emit]. rewrite !deref_set_stats. exact Hclk3.
      * cbn [trace update emit sleeps]. rewrite Hsl3. reflexivity.
    + eexists. split; [reflexivity|]. split.
      * cbn [conn update]. rewrite !deref_set_stats. exact Hclk3.
      * cbn [trace update]. exact Hsl3.
  - replace (Z.max v now_ns) with now_ns by lia.
    replace (now_ns >? now_ns) with false
      by (symmetry; rewrite Z.gtb_ltb; apply Z.ltb_irrefl).
    cbn [andb].
    eexists. split; [reflexivity|]. split; [exact Hclk3 | exact Hsl3].
Qed.

(** Two calls of 500000 bytes on a log class of 1 MB/s at clock reading
    zero: each reserves half a second, and the second sleeps one second. *)
Lemma throttle_single_class_pacing_witness :
  exists w',
    __wt_capacity_throttle 2 {| tv_sec := 0; tv_nsec := 0 |} 500000
      WT_THROTTLE_LOG
      (alone (set_capacities 0 0 0 1000000 0 0
                (assign Ref_reservation_log 500000000 fresh_connection)))
    = Done tt w'
    /\ reservation_log (conn w') = 1000000000
    /\ sleeps (trace w') = [(0, 1000000)].
Proof.
  destruct (throttle_single_class_pacing 2 {| tv_sec := 0; tv_nsec := 0 |}
              500000 WT_THROTTLE_LOG
              (alone (set_capacities 0 0 0 1000000 0 0
                        (assign Ref_reservation_log 500000000
                           fresh_connection))))
    as (w' & Hrun & Hclk & Hsleep).
  - reflexivity.
  - reflexivity.
  - reflexivity.
  - vm_compute. discriminate.
  - unfold WT_GIGABYTE. lia.
  - lia.
  - exists w'. split; [exact Hrun|]. split.
    + exact Hclk.
    + exact Hsleep.
Defined.

(** ** The server and its callers *)

Lemma cycle_shared (k : wakeup) (s : server_state) :
  others (shared (__capacity_server_cycle k s)) = others (shared s)
  /\ trace (shared (__capacity_server_cycle k s)) = trace (shared s)
  /\ (capacity_signalled (conn (shared (__capacity_server_cycle k s))) = false
      \/ capacity_signalled (conn (shared (__capacity_server_cycle k s)))
         = capacity_signalled (conn (shared s))).
Proof.
  unfold __capacity_server_cycle. cbv zeta.
  destruct (still_running k); cbn [negb].
  - destruct (capacity_written
                (conn (update (set_capacity_signalled false) (shared s)))
              >? capacity_threshold
                   (conn (update (set_capacity_signalled false) (shared s)))).
    + destruct (negb (fsync_result k =? 0)); cbn; auto.
    + cbn. auto.
  - cbn. auto.
Qed.

(** Signals and turns of the server that do not overlap: the condition is
    woken at most once more than the server has come out of its wait. *)
Lemma run_actions_credit (acts : list action) :
  forall s : server_state,
  others (shared s) = [] ->
  exists s',
    run_actions acts s = Some s'
    /\ others (shared s') = []
    /\ (wakes (trace (shared s'))
        + (if capacity_signalled (conn (shared s')) then 0 else 1)
        <= wakes (trace (shared s))
           + (if capacity_signalled (conn (shared s)) then 0 else 1)
           + server_wakes acts)%nat.
Proof.
  induction acts as [|a rest IH]; intros s Ho.
  - exists s. split; [reflexivity|]. split; [exact Ho|]. simpl. lia.
  - destruct a as [|k].
    + destruct s as [[c o t] st n e]. cbn [shared others] in Ho. subst o.
      destruct (signal_alone c t) as (c1 & Hrun & _ & _ & Hs).
      cbn [run_actions shared]. rewrite Hrun.
      cbn [shared counters fsyncs ended].
      match goal with
      | |- context [run_actions rest ?s1] =>
          destruct (IH s1 eq_refl) as (s' & Hrest & Ho' & Hcount)
      end.
      exists s'. split; [exact Hrest|]. split; [exact Ho'|].
      cbn [shared conn trace server_wakes] in *.
      rewrite Hs in Hcount.
      destruct ((capacity_written c >=? capacity_threshold c)
                && negb (capacity_signalled c)) eqn:Edue.
      * apply andb_prop in Edue. destruct Edue as [_ Ef].
        apply negb_true_iff in Ef. rewrite Ef in *.
        cbn [orb wakes] in Hcount. lia.
      * cbn [orb] in Hcount. exact Hcount.
    + cbn [run_actions server_wakes].
      destruct (ended s) eqn:Ee.
      * destruct (IH s Ho) as (s' & Hrest & Ho' & Hcount).
        exists s'. split; [exact Hrest|]. split; [exact Ho'|]. lia.
      * destruct (cycle_shared k s) as (Hco & Hct & Hcf).
        destruct (IH (__capacity_server_cycle k s)) as (s' & Hrest & Ho' & Hc).
        { rewrite Hco. exact Ho. }
        exists s'. split; [exact Hrest|]. split; [exact Ho'|].
        rewrite Hct in Hc.
        destruct Hcf as [Hcf|Hcf]; rewrite Hcf in Hc;
          destruct (capacity_signalled (conn (shared s))); lia.
Qed.

(** X15: Between two turns of the server the signals coalesce: over any
    sequence of signal calls and server turns that do not overlap, the
    condition is woken at most once more than the number of turns. *)
Theorem signals_coalesce_between_cycles
  (acts : list action) (s : server_state) :
  others (shared s) = [] ->
  exists s',
    run_actions acts s = Some s'
    /\ (wakes (trace (shared s'))
        <= wakes (trace (shared s)) + server_wakes acts + 1)%nat.
Proof.
  intros Ho.
  destruct (run_actions_credit acts s Ho) as (s' & Hrun & _ & Hcount).
  exists s'. split; [exact Hrun|].
  destruct (capacity_signalled (conn (shared s')));
    destruct (capacity_signalled (conn (shared s))); lia.
Qed.

Lemma signals_coalesce_between_cycles_witness :
  exists s',
    run_actions
      [CallSignal; CallSignal;
       ServerWake {| woken_by_signal := true; still_running := true;
                     fsync_result := 0 |};
       CallSignal; CallSignal; CallSignal]
      {| shared := alone busy_log_connection;
         counters := {| stat_capacity_timeout := 0;
                        stat_capacity_signalled := 0;
                        stat_fsync_notyet := 0 |};
         fsyncs := 0; ended := None |} = Some s'
    /\ (wakes (trace (shared s')) <= 2)%nat.
Proof.
  apply (signals_coalesce_between_cycles
           [CallSignal; CallSignal;
            ServerWake {| woken_by_signal := true; still_running := true;
                          fsync_result := 0 |};
            CallSignal; CallSignal; CallSignal]
           {| shared := alone busy_log_connection;
              counters := {| stat_capacity_timeout := 0;
                             stat_capacity_signalled := 0;
                             stat_fsync_notyet := 0 |};
              fsyncs := 0; ended := None |}).
  reflexivity.
Defined.

(** X16: The signal fires at the threshold and the server flushes only above
    it: with exactly the threshold written, every round of a signal and a
    server turn wakes the condition, flushes nothing and counts one
    "not yet", and the written bytes stay. *)
Theorem signal_at_threshold_never_flushes (k : wakeup) (n : nat) :
  forall s : server_state,
  others (shared s) = [] ->
  ended s = None ->
  still_running k = true ->
  capacity_written (conn (shared s)) = capacity_threshold (conn (shared s)) ->
  capacity_signalled (conn (shared s)) = false ->
  exists s',
    run_actions (signal_wake_rounds n k) s = Some s'
    /\ wakes (trace (shared s')) = (wakes (trace (shared s)) + n)%nat
    /\ fsyncs s' = fsyncs s
    /\ stat_fsync_notyet (counters s')
       = stat_fsync_notyet (counters s) + Z.of_nat n
    /\ capacity_written (conn (shared s'))
       = capacity_written (conn (shared s))
    /\ ended s' = None.
Proof.
  induction n as [|n IH]; intros s Ho He Hk Hw Hf.
  - exists s. split; [reflexivity|]. repeat split; try reflexivity.
    + lia.
    + simpl. lia.
    + exact He.
  - destruct s as [[c o t] st m e]. cbn [shared others conn ended] in *.
    subst o e.
    destruct (signal_alone c t) as (c1 & Hrun & Hw1 & Ht1 & Hs1).
    assert (Hdue : (capacity_written c >=? capacity_threshold c)
                   && negb (capacity_signalled c) = true).
    { rewrite Hw, Hf. apply andb_true_intro. split; [|reflexivity].
      apply Z.geb_le. lia. }
    rewrite Hdue in Hrun, Hs1. cbn [orb] in Hs1.
    cbn [signal_wake_rounds run_actions shared]. rewrite Hrun.
    cbn [shared counters fsyncs ended].
    unfold __capacity_server_cycle. rewrite Hk. cbv zeta. cbn [negb].
    cbn [shared conn update capacity_written capacity_threshold
         set_capacity_signalled counters fsyncs].
    rewrite Hw1, Ht1, Hw.
    replace (capacity_threshold c >? capacity_threshold c) with false
      by (symmetry; rewrite Z.gtb_ltb; apply Z.ltb_irrefl).
    match goal with
    | |- context [run_actions (signal_wake_rounds n k) ?s1] =>
        destruct (IH s1) as (s' & Hrest & Hwk & Hfs & Hny & Hwr & Hend)
    end.
    + reflexivity.
    + reflexivity.
    + exact Hk.
    + cbn [shared conn update capacity_written capacity_threshold
           set_capacity_signalled].
      rewrite Hw1, Ht1. exact Hw.
    + reflexivity.
    + exists s'. split; [exact Hrest|].
      cbn [shared conn update trace wakes capacity_written
           set_capacity_signalled counters fsyncs stat_fsync_notyet] in *.
      rewrite Hwk, Hfs, Hny, Hwr, Hw1.
      repeat split; try reflexivity; try exact Hend; try exact Hw.
      * lia.
      * destruct (woken_by_signal k); cbn [stat_fsync_notyet]; lia.
Qed.

Lemma signal_at_threshold_never_flushes_witness :
  exists s',
    run_actions
      (signal_wake_rounds 3
         {| woken_by_signal := true; still_running := true;
            fsync_result := 0 |})
      {| shared := alone (set_capacity_written 900000 busy_log_connection);
         counters := {| stat_capacity_timeout := 0;
                        stat_capacity_signalled := 0;
                        stat_fsync_notyet := 0 |};
         fsyncs := 0; ended := None |} = Some s'
    /\ wakes (trace (shared s')) = 3%nat
    /\ fsyncs s' = O.
Proof.
  destruct (signal_at_threshold_never_flushes
              {| woken_by_signal := true; still_running := true;
                 fsync_result := 0 |} 3
              {| shared := alone (set_capacity_written 900000
                                    busy_log_connection);
                 counters := {| stat_capacity_timeout := 0;
                                stat_capacity_signalled := 0;
                                stat_fsync_notyet := 0 |};
                 fsyncs := 0; ended := None |})
    as (s' & Hrun & Hwk & Hfs & _).
  - reflexivity.
  - reflexivity.
  - reflexivity.
  - reflexivity.
  - reflexivity.
  - exists s'. split; [exact Hrun|]. split; [exact Hwk | exact Hfs].
Defined.

(** X17: A server turn that finds more than the threshold written flushes once
    and resets the count; with a positive threshold the signal that
    follows is quiet. *)
Theorem flush_quiets_signal (k : wakeup) (s : server_state) :
  others (shared s) = [] ->
  ended s = None ->
  still_running k = true ->
  fsync_result k = 0 ->
  0 < capacity_threshold (conn (shared s)) ->
  capacity_threshold (conn (shared s)) < capacity_written (conn (shared s)) ->
  exists s',
    run_actions [ServerWake k; CallSignal] s = Some s'
    /\ fsyncs s' = S (fsyncs s)
    /\ capacity_written (conn (shared s')) = 0
    /\ capacity_signalled (conn (shared s')) = false
    /\ wakes (trace (shared s')) = wakes (trace (shared s))
    /\ ended s' = None.
Proof.
  intros Ho He Hk Hfs Hthr Hwr.
  destruct s as [[c o t] st m e]. cbn [shared others conn ended] in *.
  subst o e.
  cbn [run_actions ended].
  unfold __capacity_server_cycle. rewrite Hk, Hfs. cbv zeta. cbn [negb].
  cbn [shared conn update capacity_written capacity_threshold
       set_capacity_signalled].
  replace (capacity_written c >? capacity_threshold c) with true
    by (symmetry; apply Z.gtb_lt; lia).
  cbn [Z.eqb negb shared update conn others trace counters fsyncs ended].
  unfold update. cbn [conn others trace].
  match goal with
  | |- context [__wt_capacity_signal {| conn := ?c1; others := [];
                                         trace := t |}] =>
      destruct (signal_alone c1 t) as (c2 & Hrun & Hw2 & Ht2 & Hs2)
  end.
  rewrite Hrun.
  cbn [capacity_written capacity_threshold capacity_signalled
       set_capacity_written set_capacity_signalled] in *.
  replace (0 >=? capacity_threshold c) with false in *
    by (symmetry; rewrite Z.geb_leb; apply Z.leb_gt; lia).
  cbn [andb orb] in *.
  eexists. split; [reflexivity|].
  cbn [shared conn trace fsyncs ended].
  repeat split; assumption.
Qed.

Lemma flush_quiets_signal_witness :
  exists s',
    run_actions
      [ServerWake {| woken_by_signal := true; still_running := true;
                     fsync_result := 0 |}; CallSignal]
      {| shared := alone (set_capacity_written 2000000 busy_log_connection);
         counters := {| stat_capacity_timeout := 0;
                        stat_capacity_signalled := 0;
                        stat_fsync_notyet := 0 |};
         fsyncs := 0; ended := None |} = Some s'
    /\ fsyncs s' = 1%nat
    /\ capacity_written (conn (shared s')) = 0.
Proof.
  destruct (flush_quiets_signal
              {| woken_by_signal := true; still_running := true;
                 fsync_result := 0 |}
              {| shared := alone (set_capacity_written 2000000
                                    busy_log_connection);
                 counters := {| stat_capacity_timeout := 0;
                                stat_capacity_signalled := 0;
                                stat_fsync_notyet := 0 |};
                 fsyncs := 0; ended := None |})
    as (s' & Hrun & Hfs & Hwr & _).
  - reflexivity.
  - reflexivity.
  - reflexivity.
  - reflexivity.
  - vm_compute. reflexivity.
  - vm_compute. reflexivity.
  - exists s'. split; [exact Hrun|]. split; [exact Hfs | exact Hwr].
Defined.



(** ** The lifecycle of the server *)

(** X19: On a connection that is not read-only and whose lifecycle fields are
    consistent, with an engine whose calls succeed and a configuration that
    is accepted, create returns 0 and leaves the server thread running
    exactly when the configured threshold is not zero: a server that ran
    before has been stopped first in either case. *)
Theorem server_create_runs_iff_threshold
  (WT_THROTTLE_MIN : Z) (WT_TRET : Z -> Z -> Z)
  (x : externals) (gets : Z * Z)
  (c c' : WT_CONNECTION_IMPL) (s : WT_CAPACITY_SERVER) (p q : nat) :
  (forall r, WT_TRET r 0 = r) ->
  WT_CONN_READONLY s = false ->
  (capacity_session s = None -> capacity_tid_set s = false) ->
  open_internal_session x = (0, Some p) ->
  cond_alloc x = (0, Some q) ->
  thread_create x = 0 ->
  thread_join x = 0 ->
  session_close x = 0 ->
  __capacity_config WT_THROTTLE_MIN c gets = (0, c') ->
  exists s' ev,
    __wt_capacity_server_create WT_THROTTLE_MIN WT_TRET x gets c s
    = (0, c', s', ev)
    /\ capacity_tid_set s' = negb (capacity_threshold c' =? 0)
    /\ capacity_session s'
       = (if capacity_threshold c' =? 0 then None else Some p)
    /\ (capacity_threshold c' <> 0 -> WT_CONN_SERVER_CAPACITY s' = true).
Proof.
  intros Htret Hro Hwf Hopen Hcond Hcreate Hjoin Hclose Hcfg.
  unfold __wt_capacity_server_create. rewrite Hro.
  assert (Hdestroy :
            exists s1 ev1,
              match capacity_session s with
              | Some _ => __wt_capacity_server_destroy WT_TRET x s
              | None => (0, s, [])
              end = (0, s1, ev1)
              /\ capacity_session s1 = None
              /\ capacity_tid_set s1 = false).
  { destruct (capacity_session s) as [p0|] eqn:Es.
    - unfold __wt_capacity_server_destroy. rewrite Es, Hjoin, Hclose.
      destruct (capacity_tid_set s); rewrite !Htret;
        (eexists; eexists; split; [reflexivity|]; split; reflexivity).
    - exists s, []. split; [reflexivity|]. split; [exact Es|].
      apply Hwf. reflexivity. }
  destruct Hdestroy as (s1 & ev1 & Hd & Hs1 & Ht1). rewrite Hd.
  cbn [Z.eqb negb]. rewrite Hcfg. cbn [Z.eqb negb].
  destruct (Z.eqb_spec (capacity_threshold c') 0) as [Hz|Hnz]; cbn [negb].
  - exists s1, ev1. split; [reflexivity|]. split; [exact Ht1|].
    split; [exact Hs1|]. intros Hne. contradiction.
  - unfold __capacity_server_start.
    rewrite Hs1, Hopen, Hcond, Hcreate. cbn [Z.eqb negb].
    eexists. eexists. split; [reflexivity|].
    cbn [capacity_tid_set capacity_session WT_CONN_SERVER_CAPACITY].
    repeat split; reflexivity.
Qed.

Lemma server_create_runs_iff_threshold_witness :
  exists s' ev,
    __wt_capacity_server_create 1048576 keep_first_error obliging_engine
      (0, 10000000) fresh_connection running_server
    = (0, snd (__capacity_config 1048576 fresh_connection (0, 10000000)),
       s', ev)
    /\ capacity_tid_set s' = true.
Proof.
  destruct (server_create_runs_iff_threshold 1048576 keep_first_error
              obliging_engine (0, 10000000) fresh_connection
              (snd (__capacity_config 1048576 fresh_connection (0, 10000000)))
              running_server 1%nat 2%nat)
    as (s' & ev & Hrun & Htid & _).
  - intros r. unfold keep_first_error. destruct (r =? 0) eqn:E.
    + apply Z.eqb_eq in E. subst r. reflexivity.
    + reflexivity.
  - reflexivity.
  - discriminate.
  - reflexivity.
  - reflexivity.
  - reflexivity.
  - reflexivity.
  - reflexivity.
  - reflexivity.
  - exists s', ev. split; [exact Hrun|]. rewrite Htid. reflexivity.
Defined.

(** X20: A reconfiguration refused for its total has already stopped the
    server: create signals and joins the thread, destroys the condition,
    closes the session and clears the lifecycle fields before the
    configuration is checked, so [EINVAL] comes back with the capacities
    unchanged and no server running. *)
Theorem server_reconfigure_refused_stops_server
  (WT_THROTTLE_MIN : Z) (WT_TRET : Z -> Z -> Z)
  (x : externals) (total : Z)
  (c : WT_CONNECTION_IMPL) (s : WT_CAPACITY_SERVER) (p : nat) :
  (forall r, WT_TRET r 0 = r) ->
  WT_CONN_READONLY s = false ->
  capacity_session s = Some p ->
  capacity_tid_set s = true ->
  thread_join x = 0 ->
  session_close x = 0 ->
  0 < total < WT_THROTTLE_MIN ->
  __wt_capacity_server_create WT_THROTTLE_MIN WT_TRET x (0, total) c s
  = (EINVAL, c,
     {| WT_CONN_SERVER_CAPACITY := false;
        WT_CONN_READONLY := false;
        capacity_session := None;
        capacity_cond := None;
        capacity_tid_set := false;
        capacity_usecs := 0 |},
     [LcCondSignal; LcThreadJoin; LcCondDestroy; LcSessionClose]).
Proof.
  intros Htret Hro Hs Ht Hjoin Hclose [Hpos Hlt].
  unfold __wt_capacity_server_create. rewrite Hro, Hs.
  unfold __wt_capacity_server_destroy. rewrite Hs, Ht, Hjoin, Hclose, Hro.
  rewrite !Htret. cbn [Z.eqb negb app].
  unfold __capacity_config. cbn [Z.eqb negb].
  replace (total =? 0) with false by (symmetry; apply Z.eqb_neq; lia).
  replace (total <? WT_THROTTLE_MIN) with true
    by (symmetry; apply Z.ltb_lt; exact Hlt).
  reflexivity.
Qed.

Lemma server_reconfigure_refused_stops_server_witness :
  exists s' ev,
    __wt_capacity_server_create 1048576 keep_first_error obliging_engine
      (0, 4096) busy_log_connection running_server
    = (EINVAL, busy_log_connection, s', ev)
    /\ capacity_tid_set s' = false.
Proof.
  eexists. eexists. split.
  - apply (server_reconfigure_refused_stops_server 1048576 keep_first_error
             obliging_engine 4096 busy_log_connection running_server 1%nat).
    + intros r. unfold keep_first_error. destruct (r =? 0) eqn:E.
      * apply Z.eqb_eq in E. subst r. reflexivity.
      * reflexivity.
    + reflexivity.
    + reflexivity.
    + reflexivity.
    + reflexivity.
    + reflexivity.
    + lia.
  - reflexivity.
Defined.

(** X21: Destroy releases what start acquired, however far start got: started
    on a connection without a server and followed by destroy, it leaves
    the lifecycle fields blank; the thread is joined exactly when start
    returned 0, the session is closed exactly when the engine left a
    session pointer, and the condition is destroyed in every case. *)
Theorem server_start_then_destroy
  (WT_TRET : Z -> Z -> Z) (x x' : externals) (s : WT_CAPACITY_SERVER) :
  capacity_session s = None ->
  capacity_tid_set s = false ->
  let '(ret1, s1, ev1) := __capacity_server_start x s in
  let '(ret2, s2, ev2) := __wt_capacity_server_destroy WT_TRET x' s1 in
  s2 = {| WT_CONN_SERVER_CAPACITY := false;
          WT_CONN_READONLY := WT_CONN_READONLY s;
          capacity_session := None;
          capacity_cond := None;
          capacity_tid_set := false;
          capacity_usecs := 0 |}
  /\ (In LcThreadJoin ev2 <-> ret1 = 0)
  /\ (In LcSessionClose ev2 <-> snd (open_internal_session x) <> None)
  /\ In LcCondDestroy ev2.
Proof.
  intros Hs Ht.
  unfold __capacity_server_start, __wt_capacity_server_destroy. rewrite Hs.
  destruct (open_internal_session x) as [ret1 [p|]];
    destruct (cond_alloc x) as [ret2 cond];
    destruct (Z.eqb_spec ret1 0) as [H1|H1];
    destruct (Z.eqb_spec ret2 0) as [H2|H2];
    destruct (Z.eqb_spec (thread_create x) 0) as [H3|H3];
    cbn [negb capacity_tid_set capacity_session WT_CONN_READONLY snd];
    rewrite ?Ht; cbn [app In];
    (split; [reflexivity|]);
    (split; [|split]);
    try (split; intros);
    repeat match goal with
           | H : _ \/ _ |- _ => destruct H
           | H : False |- _ => destruct H
           | H : ?a = ?b |- _ => discriminate H
           end;
    try congruence; try contradiction; auto 6.
Qed.

Lemma server_start_then_destroy_witness :
  let '(ret1, s1, ev1) := __capacity_server_start obliging_engine no_server in
  let '(ret2, s2, ev2) :=
    __wt_capacity_server_destroy keep_first_error obliging_engine s1 in
  s2 = no_server /\ In LcThreadJoin ev2.
Proof.
  pose proof (server_start_then_destroy keep_first_error obliging_engine
                obliging_engine no_server eq_refl eq_refl) as H.
  cbv beta iota zeta delta [__capacity_server_start
                            __wt_capacity_server_destroy obliging_engine
                            no_server capacity_session capacity_tid_set
                            open_internal_session cond_alloc thread_create
                            Z.eqb negb] in H |- *.
  destruct H as (Hblank & Hjoin & _).
  split; [exact Hblank|]. apply Hjoin. reflexivity.
Defined.

(** X14: A pass that crashes, whatever the other threads do, has divided by the
    capacity of a victim that has none, right after the assertion on that
    capacity failed: the caller's capacity and the total capacity are never
    zero divisors. *)
Theorem pass_crash_only_on_victim
  (type : WT_THROTTLE_TYPE) (bytes capacity total_capacity now_ns : Z)
  (st : option clock_ref) (sc : Z) (w w' : world) (f : fault) :
  throttle_pass type bytes capacity total_capacity now_ns st sc w
  = Crash f w' ->
  f = DivisionByZero
  /\ exists wc, w' = emit (EvAssertFailed Assert_steal_capacity_nonzero) wc.
Proof.
  apply pass_crash_is_victim.
Qed.

Lemma pass_crash_only_on_victim_witness :
  exists w' wc,
    throttle_pass WT_THROTTLE_READ 10 1 1844674407370955164
      1700000000000000000 None 0
      (alone (with_clocks
                (snd (__capacity_config 1048576 fresh_connection
                        (0, 1844674407370955164)))
                0 0 0 1700000009000000000 1699999999000000000))
    = Crash DivisionByZero w'
    /\ w' = emit (EvAssertFailed Assert_steal_capacity_nonzero) wc.
Proof.
  pose proof (pass_crash_only_on_victim WT_THROTTLE_READ 10 1
                1844674407370955164 1700000000000000000 None 0
                (alone (with_clocks
                          (snd (__capacity_config 1048576 fresh_connection
                                  (0, 1844674407370955164)))
                          0 0 0 1700000009000000000 1699999999000000000)))
    as H.
  remember (throttle_pass WT_THROTTLE_READ 10 1 1844674407370955164
              1700000000000000000 None 0
              (alone (with_clocks
                        (snd (__capacity_config 1048576 fresh_connection
                                (0, 1844674407370955164)))
                        0 0 0 1700000009000000000 1699999999000000000)))
    as o eqn:Eo.
  vm_compute in Eo. subst o.
  destruct (H _ _ eq_refl) as [_ [wc Hwc]].
  eexists. exists wc. split; [reflexivity | exact Hwc].
Defined.

(** ** The bought-back slot beyond 64 bits *)

(** C4, at an input that breaks it: with a total of 10^12 bytes per second
    the eviction capacity is 6 * 10^11, so the stolen bytes are
    37500000000 and their product with 10^9 does not fit in 64 bits.  The
    sixth of six checkpoint calls of 17179869183 bytes finds its clock in
    the future and steals from the idle eviction clock, which is set as the
    claim says; but the caller's clock is decreased by 6065118 ns, the
    wrapped product divided by the checkpoint capacity, where the slot of
    the stolen bytes is 375000000 ns, and the call sleeps 24727
    microseconds. *)
Theorem steal_buyback_overflow (WT_THROTTLE_MIN : Z) :
  WT_THROTTLE_MIN <= 1000000000000 ->
  exists c w5 w6,
    __capacity_config WT_THROTTLE_MIN fresh_connection (0, 1000000000000)
    = (0, c)
    /\ capacity_ckpt c = 100000000000
    /\ capacity_evict c = 600000000000
    /\ throttle_calls 2 (repeat in_2023 5) 17179869183 WT_THROTTLE_CKPT
         (alone c) = Done tt w5
    /\ __wt_capacity_throttle 2 in_2023 17179869183 WT_THROTTLE_CKPT w5
       = Done tt w6
    /\ reservation_evict (conn w5) = 0
    /\ reservation_evict (conn w6)
       = 1700000000000000000 - WT_BILLION + WT_BILLION / 16
         + 17179869183 * WT_BILLION / capacity_evict c
    /\ reservation_ckpt (conn w6)
       = reservation_ckpt (conn w5)
         + 17179869183 * WT_BILLION / capacity_ckpt c - 6065118
    /\ capacity_evict c / 16 * WT_BILLION / capacity_ckpt c = 375000000
    /\ sleeps (trace w6) = [(0, 24727)].
Proof.
  intros Hmin. unfold __capacity_config.
  change (negb (0 =? 0)) with false. cbv iota.
  replace (1000000000000 <? WT_THROTTLE_MIN) with false
    by (symmetry; apply Z.ltb_ge; exact Hmin).
  rewrite andb_false_r.
  eexists. eexists. eexists. split; [reflexivity|].
  split; [reflexivity|]. split; [reflexivity|].
  split; [vm_compute; reflexivity|].
  split; [vm_compute; reflexivity|].
  repeat split; reflexivity.
Qed.

Lemma steal_buyback_overflow_witness :
  exists c w5 w6,
    __capacity_config 1048576 fresh_connection (0, 1000000000000) = (0, c)
    /\ throttle_calls 2 (repeat in_2023 5) 17179869183 WT_THROTTLE_CKPT
         (alone c) = Done tt w5
    /\ __wt_capacity_throttle 2 in_2023 17179869183 WT_THROTTLE_CKPT w5
       = Done tt w6
    /\ reservation_ckpt (conn w6)
       = reservation_ckpt (conn w5)
         + 17179869183 * WT_BILLION / capacity_ckpt c - 6065118.
Proof.
  destruct (steal_buyback_overflow 1048576)
    as (c & w5 & w6 & Hcfg & _ & _ & H5 & H6 & _ & _ & Hclk & _).
  - lia.
  - exists c, w5, w6. repeat split; assumption.
Defined.
